(** * Cerbero Telegram notification bot: the notification reconciler

    A shallow embedding of [src/index.ts] and [src/utils.ts].

    The program polls Twitch for a set of channels and mirrors their live
    status into Telegram chats.  Its state is one mutable JSON document
    ([statusDb.data]) which [update] changes in place between [await]s, so the
    embedding keeps three things apart:

    - [JS]: the parts of JavaScript the code leans on (objects used as
      string-keyed maps with their enumeration order, [parseInt], number to
      property-key conversion, truthiness);
    - [Prog]: an [async] function as a tree of synchronous memory operations
      and suspension points ([await] on a call to Twitch, Telegram or the
      state file), so that a task can be run to completion, or only up to a
      deadline the way [Promise.race] against a timer observes it;
    - the scheduler ([fulfillWithTimeLimit], [updateAll] and the top-level
      loop) as functions from the [World] to an outcome and a new [World]. *)

From Stdlib Require Import List String Ascii ZArith NArith Bool Lia.
From Stdlib Require Import DecimalString DecimalPos DecimalZ.
Import ListNotations.

Local Open Scope string_scope.
Local Open Scope Z_scope.

(** ** JavaScript values the program depends on *)

Module JS.

(** A plain object used as [Record<string, V>]: own properties in creation
    order.  What it inherits from [Object.prototype] is [inherited]
    below. *)
Definition Obj (V : Type) : Type := list (string * V).

(** The string-keyed properties of [Object.prototype].  They are not
    enumerable; read through an object that has no own property of that
    name, each gives a function or an object, which is truthy and is none
    of the values the program stores. *)
Definition prototypeProperties : list string :=
  ["constructor"; "__defineGetter__"; "__defineSetter__"; "hasOwnProperty";
   "__lookupGetter__"; "__lookupSetter__"; "isPrototypeOf";
   "propertyIsEnumerable"; "toString"; "valueOf"; "__proto__"; "toLocaleString"].

Definition inherited (k : string) : bool :=
  existsb (String.eqb k) prototypeProperties.

Section Objects.
Context {V : Type}.

(** [o[k]] ([None] is [undefined]). *)
Fixpoint get (k : string) (o : Obj V) : option V :=
  match o with
  | [] => None
  | (k', v) :: o' => if String.eqb k' k then Some v else get k o'
  end.

(** [o[k] = v]: an existing property keeps its place, a new one is
    created last. *)
Fixpoint set (k : string) (v : V) (o : Obj V) : Obj V :=
  match o with
  | [] => [(k, v)]
  | (k', v') :: o' =>
      if String.eqb k' k then (k', v) :: o' else (k', v') :: set k v o'
  end.

(** [delete o[k]]. *)
Fixpoint delete (k : string) (o : Obj V) : Obj V :=
  match o with
  | [] => []
  | (k', v') :: o' =>
      if String.eqb k' k then delete k o' else (k', v') :: delete k o'
  end.

(** In-place change of the object stored under [k] (a mutation through a
    reference obtained as [o[k]]); nothing happens when [k] is absent. *)
Fixpoint update (k : string) (f : V -> V) (o : Obj V) : Obj V :=
  match o with
  | [] => []
  | (k', v') :: o' =>
      if String.eqb k' k then (k', f v') :: o' else (k', v') :: update k f o'
  end.
End Objects.

(** *** Property order

    [Object.entries], [Object.keys] and [for ... in] list the properties
    that are array indices (canonical decimal strings below [2^32 - 1])
    first, in ascending numeric order, and then the other string keys in
    creation order. *)

Definition digit_of_ascii (c : ascii) : option N :=
  let n := N_of_ascii c in
  if ((48 <=? n) && (n <=? 57))%N then Some (n - 48)%N else None.

Fixpoint decimal_value (s : string) (acc : N) : option N :=
  match s with
  | EmptyString => Some acc
  | String c s' =>
      match digit_of_ascii c with
      | Some d => decimal_value s' (10 * acc + d)%N
      | None => None
      end
  end.

Definition array_index (k : string) : option N :=
  match k with
  | EmptyString => None
  | String "0" EmptyString => Some 0%N
  | String "0" _ => None
  | _ =>
      match decimal_value k 0 with
      | Some n => if (n <? 4294967295)%N then Some n else None
      | None => None
      end
  end.

Section Enumeration.
Context {V : Type}.

Fixpoint insert_by_index (e : N * (string * V)) (l : list (N * (string * V)))
  : list (N * (string * V)) :=
  match l with
  | [] => [e]
  | e' :: l' =>
      if (fst e <=? fst e')%N then e :: l else e' :: insert_by_index e l'
  end.

Fixpoint index_properties (o : Obj V) : list (N * (string * V)) :=
  match o with
  | [] => []
  | (k, v) :: o' =>
      match array_index k with
      | Some n => insert_by_index (n, (k, v)) (index_properties o')
      | None => index_properties o'
      end
  end.

Definition string_properties (o : Obj V) : Obj V :=
  filter (fun kv => match array_index (fst kv) with
                    | Some _ => false
                    | None => true
                    end) o.

(** [Object.entries(o)]. *)
Definition entries (o : Obj V) : list (string * V) :=
  map snd (index_properties o) ++ string_properties o.

(** [Object.keys(o)], also the order of [for (const k in o)]. *)
Definition keys (o : Obj V) : list string := map fst (entries o).
End Enumeration.

(** *** Numbers

    Chat ids and message ids are JSON integers; they are modelled as [Z],
    which is exact for the safe-integer range Telegram ids live in. *)

(** [Number.isSafeInteger(n)]: below [2^53] in absolute value. *)
Definition isSafeInteger (n : Z) : bool := Z.abs n <? 2 ^ 53.

(** The Number value of the integer [z]: the nearest double, a tie going to
    the even significand; [None] when that is an infinity. *)
Definition toNumber (z : Z) : option Z :=
  let a := Z.abs z in
  if a <? 2 ^ 53 then Some z
  else
    let e := Z.log2 a - 52 in
    let q := Z.shiftr a e in
    let r := a - Z.shiftl q e in
    let half := Z.shiftl 1 (e - 1) in
    let q' := if (half <? r) || ((r =? half) && Z.odd q) then q + 1 else q in
    let m := Z.shiftl q' e in
    if 2 ^ 1024 <=? m then None else Some (Z.sgn z * m).

(** [String(n)] for an integer [n], the property key of [o[n]]: the
    decimal numeral, which is what JavaScript gives for the integers of the
    safe range.  (Beyond it a Number is not every integer, and from [1e21]
    on [String] writes an exponent; statements that depend on the numeral
    assume [isSafeInteger].) *)
Definition toString (n : Z) : string := NilZero.string_of_int (Z.to_int n).

(** A string is the sequence of bytes of its UTF-8 encoding.  The number
    of bytes of the white space or line terminator a string starts with
    (TAB, LF, VT, FF, CR, SP, U+00A0, U+1680, U+2000 to U+200A, U+2028,
    U+2029, U+202F, U+205F, U+3000, U+FEFF), [O] when it starts with
    something else. *)
Definition white_space_length (s : string) : nat :=
  match s with
  | EmptyString => O
  | String c s1 =>
      let n := N_of_ascii c in
      if ((n =? 9) || (n =? 10) || (n =? 11) || (n =? 12) || (n =? 13) || (n =? 32))%N
      then 1%nat
      else if (n =? 194)%N then
        match s1 with
        | String c1 _ => if (N_of_ascii c1 =? 160)%N then 2%nat else O
        | EmptyString => O
        end
      else if ((n =? 225) || (n =? 226) || (n =? 227) || (n =? 239))%N then
        match s1 with
        | String c1 (String c2 _) =>
            let n1 := N_of_ascii c1 in
            let n2 := N_of_ascii c2 in
            if ((n =? 225) && (n1 =? 154) && (n2 =? 128))
               || ((n =? 226) && (n1 =? 128)
                   && (((128 <=? n2) && (n2 <=? 138)) || (n2 =? 168) || (n2 =? 169)
                       || (n2 =? 175)))
               || ((n =? 226) && (n1 =? 129) && (n2 =? 159))
               || ((n =? 227) && (n1 =? 128) && (n2 =? 128))
               || ((n =? 239) && (n1 =? 187) && (n2 =? 191))
            then 3%nat else O
        | _ => O
        end
      else O
  end%N.

(** [s] without the white space it starts with; [skip] bytes of a white
    space character are still to be dropped. *)
Fixpoint trim_from (skip : nat) (s : string) : string :=
  match s with
  | EmptyString => s
  | String _ s' =>
      match skip with
      | S n => trim_from n s'
      | O =>
          match white_space_length s with
          | S n => trim_from n s'
          | O => s
          end
      end
  end.

Definition trim_start (s : string) : string := trim_from O s.

Definition digit_in_radix (radix : N) (c : ascii) : option N :=
  let n := N_of_ascii c in
  let d := if ((48 <=? n) && (n <=? 57))%N then Some (n - 48)%N
           else if ((97 <=? n) && (n <=? 122))%N then Some (n - 87)%N
           else if ((65 <=? n) && (n <=? 90))%N then Some (n - 55)%N
           else None in
  match d with
  | Some v => if (v <? radix)%N then Some v else None
  | None => None
  end.

(** The longest prefix of digits; [None] when there is no digit at all. *)
Fixpoint parse_digits (radix : N) (s : string) (acc : option N) : option N :=
  match s with
  | EmptyString => acc
  | String c s' =>
      match digit_in_radix radix c with
      | Some d =>
          parse_digits radix s'
            (Some (radix * (match acc with Some a => a | None => 0 end) + d)%N)
      | None => acc
      end
  end.

(** The integer [parseInt(s)] reads, without a radix, before it is made a
    Number; [None] is [NaN].  Leading white space is skipped, then an
    optional sign, then an optional [0x] prefix selecting base 16, then
    digits; whatever follows the digits is ignored. *)
Definition mathInt (s : string) : option Z :=
  let s1 := trim_start s in
  let '(negative, s2) :=
    match s1 with
    | String "-" r => (true, r)
    | String "+" r => (false, r)
    | _ => (false, s1)
    end in
  let '(radix, s3) :=
    match s2 with
    | String "0" (String "x" r) => (16%N, r)
    | String "0" (String "X" r) => (16%N, r)
    | _ => (10%N, s2)
    end in
  match parse_digits radix s3 None with
  | Some n => Some (if negative then - Z.of_N n else Z.of_N n)
  | None => None
  end.

(** [parseInt(s)]: [None] is [NaN] or an infinity, neither of which is an
    integer. *)
Definition parseInt (s : string) : option Z :=
  match mathInt s with
  | Some z => toNumber z
  | None => None
  end.

(** [xs.includes(x)] where [x] may be [NaN] or an infinity; the arrays of
    the configuration hold integers only, so neither is ever found. *)
Definition includes (xs : list Z) (x : option Z) : bool :=
  match x with
  | Some z => existsb (Z.eqb z) xs
  | None => false
  end.

(** [!id] for [id : number | null]: [null] and [0] are falsy. *)
Definition falsy (id : option Z) : bool :=
  match id with
  | None => true
  | Some z => Z.eqb z 0
  end.

End JS.

(** ** Data model ([src/index.ts], lines 11-29) *)

Record ConfigChannelEntry : Type := {
  groupIds : list Z;
  channelIds : list Z;
  bot : string
}.

Module Config.
Record t : Type := {
  twitchClientId : string;
  twitchClientToken : string;
  channels : JS.Obj ConfigChannelEntry;
  bots : JS.Obj string
}.
End Config.

(** [channels] and [groups] map a chat id (as a property key) to the id of
    the notification message there, or to [null]. *)
Record ChannelState : Type := {
  lastStreamId : option string;
  lastStreamTitle : option string;
  channels : JS.Obj (option Z);
  groups : JS.Obj (option Z)
}.

Definition StatusDb : Type := JS.Obj ChannelState.

Definition set_lastStreamId (v : option string) (s : ChannelState) : ChannelState :=
  {| lastStreamId := v; lastStreamTitle := lastStreamTitle s;
     channels := channels s; groups := groups s |}.

Definition set_lastStreamTitle (v : option string) (s : ChannelState) : ChannelState :=
  {| lastStreamId := lastStreamId s; lastStreamTitle := v;
     channels := channels s; groups := groups s |}.

Definition on_channels (f : JS.Obj (option Z) -> JS.Obj (option Z)) (s : ChannelState)
  : ChannelState :=
  {| lastStreamId := lastStreamId s; lastStreamTitle := lastStreamTitle s;
     channels := f (channels s); groups := groups s |}.

Definition on_groups (f : JS.Obj (option Z) -> JS.Obj (option Z)) (s : ChannelState)
  : ChannelState :=
  {| lastStreamId := lastStreamId s; lastStreamTitle := lastStreamTitle s;
     channels := channels s; groups := f (groups s) |}.

(** What the Twitch client hands back (fields the program reads). *)
Module HelixUser.
Record t : Type := { id : string }.
End HelixUser.

Module HelixStream.
Record t : Type := { id : string; title : string; userName : string }.
End HelixStream.

(** A Telegram chat id is passed either as a number taken from the
    configuration or as a property key of the state. *)
Inductive ChatId : Type :=
| ChatNum (n : Z)
| ChatStr (s : string).

Inductive JsError : Type :=
| Error (message : string)
| TypeError (message : string).

(** [a === b] for [a : string | null] and [b : string]. *)
Definition strict_eq (a : option string) (b : string) : bool :=
  match a with
  | Some s => String.eqb s b
  | None => false
  end.

(** ** Effects *)

(** How a promise settles. *)
Inductive Settled (X : Type) : Type :=
| Fulfilled (x : X)
| Rejected (e : JsError).
Arguments Fulfilled {X} x.
Arguments Rejected {X} e.

(** Calls that leave the process and are awaited: the Twitch API, the
    Telegram API of the bot named [bot], and [statusDb.write()]. *)
Inductive Ext : Type -> Type :=
| getUsersByNames (names : list string) : Ext (list HelixUser.t)
| getStreamByUserId (userId : string) : Ext (option HelixStream.t)
| sendMessage (bot : string) (chatId : ChatId) (text : string) : Ext Z
| editMessageText (bot : string) (chatId : ChatId) (messageId : Z) (text : string)
  : Ext unit
| pinChatMessage (bot : string) (chatId : ChatId) (messageId : Z) : Ext unit
| unpinChatMessage (bot : string) (chatId : ChatId) (messageId : Z) : Ext unit
| statusDb_write : Ext unit.

Inductive Level : Type := log | warn | error.

(** Synchronous operations: reads and in-place writes of
    [statusDb.data[name]], the keys of [statusDb.data] and the removal of one
    of them, the console, and [crypto.randomBytes(n)] rendered in
    hexadecimal. *)
Inductive Mem : Type -> Type :=
| readState (name : string) : Mem (option ChannelState)
| assign (name : string) (f : ChannelState -> ChannelState) : Mem unit
| recordedNames : Mem (list string)
| deleteState (name : string) : Mem unit
| console (level : Level) (line : string) : Mem unit
| randomBytesHex (n : nat) : Mem string.

(** An awaited call together with the way it settled. *)
Inductive Event : Type :=
| Ev {X : Type} (c : Ext X) (r : Settled X).

(** An [async] function body: it returns, throws, performs a synchronous
    operation, or suspends on a call and resumes with its settlement (so a
    [try]/[catch] around an [await] is a continuation that handles
    [Rejected]). *)
Inductive Prog (A : Type) : Type :=
| Ret (a : A)
| Throw (e : JsError)
| Sync {X : Type} (op : Mem X) (k : X -> Prog A)
| Await {X : Type} (c : Ext X) (k : Settled X -> Prog A).
Arguments Ret {A} a.
Arguments Throw {A} e.
Arguments Sync {A X} op k.
Arguments Await {A X} c k.

Fixpoint bind {A B : Type} (m : Prog A) (f : A -> Prog B) : Prog B :=
  match m with
  | Ret a => f a
  | Throw e => Throw e
  | Sync op k => Sync op (fun x => bind (k x) f)
  | Await c k => Await c (fun r => bind (k r) f)
  end.

Declare Scope prog_scope.
Delimit Scope prog_scope with prog.
Bind Scope prog_scope with Prog.
Notation "x <- m ;; k" := (bind m (fun x => k))
  (at level 61, m at next level, right associativity) : prog_scope.
Notation "m ;; k" := (bind m (fun _ => k))
  (at level 61, right associativity) : prog_scope.
Local Open Scope prog_scope.

Definition sync {X : Type} (op : Mem X) : Prog X := Sync op Ret.

(** [await c]: a rejection is rethrown. *)
Definition await {X : Type} (c : Ext X) : Prog X :=
  Await c (fun r => match r with
                    | Fulfilled x => Ret x
                    | Rejected e => Throw e
                    end).

(** [for (const x of xs) body]; a [continue] is a body that returns early. *)
Fixpoint forOf {A : Type} (xs : list A) (body : A -> Prog unit) : Prog unit :=
  match xs with
  | [] => Ret tt
  | x :: xs' => body x ;; forOf xs' body
  end.

(** The same with one local variable carried through the iterations. *)
Fixpoint forOfWith {A S : Type} (xs : list A) (s : S) (body : A -> S -> Prog S)
  : Prog S :=
  match xs with
  | [] => Ret s
  | x :: xs' => s' <- body x s ;; forOfWith xs' s' body
  end.

(** ** The world the program runs in *)

(** What the program imports and the repository does not define: the
    [escape] function of html-escaper, the random source, and the behaviour
    of the remote services.  A call is answered from the calls made so far;
    the answer comes with the time it takes to arrive, in milliseconds. *)
Record Externals : Type := {
  escape : string -> string;
  randomHex : nat -> nat -> string;
  respond : forall X : Type, list Event -> Ext X -> Settled X * N
}.

Record World : Type := {
  data : StatusDb;                      (* statusDb.data, in memory *)
  disk : StatusDb;                      (* state.json *)
  history : list Event;                 (* awaited calls, oldest first *)
  output : list (Level * string);       (* the console *)
  draws : nat;                          (* random values drawn so far *)
  now : N;                              (* milliseconds *)
  detached : list (Prog unit)           (* tasks nobody awaits any more *)
}.

Definition is_write {X : Type} (c : Ext X) : bool :=
  match c with
  | statusDb_write => true
  | _ => false
  end.

Definition is_fulfilled {X : Type} (r : Settled X) : bool :=
  match r with
  | Fulfilled _ => true
  | Rejected _ => false
  end.

Inductive Outcome (A : Type) : Type :=
| Ok (a : A)
| Thrown (e : JsError).
Arguments Ok {A} a.
Arguments Thrown {A} e.

Definition with_data (f : StatusDb -> StatusDb) (w : World) : World :=
  {| data := f (data w); disk := disk w; history := history w; output := output w;
     draws := draws w; now := now w; detached := detached w |}.

Definition print (level : Level) (line : string) (w : World) : World :=
  {| data := data w; disk := disk w; history := history w;
     output := output w ++ [(level, line)];
     draws := draws w; now := now w; detached := detached w |}.

Definition drawn (w : World) : World :=
  {| data := data w; disk := disk w; history := history w; output := output w;
     draws := S (draws w); now := now w; detached := detached w |}.

Definition at_time (t : N) (w : World) : World :=
  {| data := data w; disk := disk w; history := history w; output := output w;
     draws := draws w; now := t; detached := detached w |}.

Definition detach (task : Prog unit) (w : World) : World :=
  {| data := data w; disk := disk w; history := history w; output := output w;
     draws := draws w; now := now w; detached := detached w ++ [task] |}.

(** The call [c] has settled as [r] after [dt] milliseconds.  A call is
    recorded, and a write reaches the file, when it settles; lowdb writes the
    whole of [statusDb.data]. *)
Definition settled {X : Type} (c : Ext X) (r : Settled X) (dt : N) (w : World) : World :=
  {| data := data w;
     disk := if is_write c && is_fulfilled r then data w else disk w;
     history := history w ++ [Ev c r];
     output := output w; draws := draws w; now := (now w + dt)%N;
     detached := detached w |}.

(** An error handed to the console is shown here by its message (Node
    prints its stack as well). *)
Definition messageOf (e : JsError) : string :=
  match e with
  | Error m => m
  | TypeError m => m
  end.

(** ** The program *)

Section Program.

Variable E : Externals.
Variable config : Config.t.

(** *** Running a task *)

Definition step_sync {X : Type} (op : Mem X) (w : World) : X * World :=
  match op in Mem X return X * World with
  | readState name => (JS.get name (data w), w)
  | assign name f => (tt, with_data (JS.update name f) w)
  | recordedNames => (JS.keys (data w), w)
  | deleteState name => (tt, with_data (JS.delete name) w)
  | console level line => (tt, print level line w)
  | randomBytesHex n => (randomHex E (draws w) n, drawn w)
  end.

(** To completion, with nothing else running in between. *)
Fixpoint exec {A : Type} (p : Prog A) (w : World) : Outcome A * World :=
  match p with
  | Ret a => (Ok a, w)
  | Throw e => (Thrown e, w)
  | Sync op k => let (x, w') := step_sync op w in exec (k x) w'
  | Await c k =>
      let (r, dt) := respond E _ (history w) c in
      exec (k r) (settled c r dt w)
  end.

Inductive Raced (A : Type) : Type :=
| Finished (o : Outcome A)
| Expired (rest : Prog A).
Arguments Finished {A} o.
Arguments Expired {A} rest.

(** Up to a deadline: synchronous code cannot be interrupted; a call whose
    answer would arrive after the deadline is still pending when the timer
    fires, and the task is left suspended on it.  An answer due at the very
    instant of the deadline is handled before the timer only when the call
    was made before the timer was set: [early] says that no call has been
    made yet.  (In [fulfillWithTimeLimit(limit, update(...))] the argument
    is evaluated first, so [update] has run up to its first [await] when
    the timer is armed; timers set later fire later.) *)
Fixpoint race {A : Type} (early : bool) (deadline : N) (p : Prog A) (w : World)
  : Raced A * World :=
  match p with
  | Ret a => (Finished (Ok a), w)
  | Throw e => (Finished (Thrown e), w)
  | Sync op k => let (x, w') := step_sync op w in race early deadline (k x) w'
  | Await c k =>
      let (r, dt) := respond E _ (history w) c in
      if (if early then now w + dt <=? deadline else now w + dt <? deadline)%N
      then race false deadline (k r) (settled c r dt w)
      else (Expired (Await c k), at_time deadline w)
  end.

(** *** [src/utils.ts]

    [Promise.race([task, timeoutPromise])]: when the timer wins, the caller
    gets the rejection [Error('Task timeout!')]; nothing cancels [task],
    which stays suspended on its pending call and goes on when that call
    settles. *)
Definition fulfillWithTimeLimit {T : Type} (timeLimit : N) (task : Prog T)
  : World -> Outcome T * World :=
  fun w =>
    match race true (now w + timeLimit)%N task w with
    | (Finished response, w') => (response, w')
    | (Expired rest, w') =>
        (Thrown (Error "Task timeout!"), detach (rest ;; Ret tt) w')
    end.

(** The tasks left behind by a timeout, each run on from where it was
    suspended.  (When they resume relative to later sweeps depends on the
    network; here they resume together, first left first.) *)
Definition resumeDetached (w : World) : World :=
  fold_left (fun w' task => snd (exec task w')) (detached w)
    {| data := data w; disk := disk w; history := history w; output := output w;
       draws := draws w; now := now w; detached := [] |}.

(** *** [src/index.ts], [getBot] (lines 45-51)

    [bots[name]] is the [Telegraf] object made from the token of that name,
    which is always truthy, or, for a name the configuration does not have,
    what [Object.prototype] has under it: a truthy value too, and not a
    bot. *)
Inductive Bot : Type :=
| Telegraf (name : string)
| NotABot (name : string).

Definition getBot (name : string) : Prog Bot :=
  match JS.get name (Config.bots config) with
  | Some _ => Ret (Telegraf name)
  | None =>
      if JS.inherited name then Ret (NotABot name)
      else Throw (Error ("Unknown bot " ++ name))
  end.

(** The method of [bot.telegram] a call goes through. *)
Definition telegramMethod {X : Type} (c : Ext X) : option string :=
  match c with
  | sendMessage _ _ _ => Some "sendMessage"
  | editMessageText _ _ _ _ => Some "editMessageText"
  | pinChatMessage _ _ _ => Some "pinChatMessage"
  | unpinChatMessage _ _ _ => Some "unpinChatMessage"
  | _ => None
  end.

(** Code run with a [bot] that is not a bot: [bot.telegram] is [undefined],
    so where a request to Telegram would be made, reading the method throws
    a [TypeError] instead (which a [try] around the call catches like a
    rejection); no request is made. *)
Fixpoint withoutTelegram {A : Type} (p : Prog A) : Prog A :=
  match p with
  | Ret a => Ret a
  | Throw e => Throw e
  | Sync op k => Sync op (fun x => withoutTelegram (k x))
  | Await c k =>
      match telegramMethod c with
      | Some method =>
          withoutTelegram
            (k (Rejected (TypeError ("Cannot read properties of undefined (reading '"
                                       ++ method ++ "')"))))
      | None => Await c (fun r => withoutTelegram (k r))
      end
  end.

(** [state], the object [statusDb.data[channelName]]: reading a property of
    it throws when the record is missing. *)
Definition theState (channelName : string) : Prog ChannelState :=
  Sync (readState channelName) (fun s =>
    match s with
    | Some state => Ret state
    | None => Throw (TypeError "Cannot read properties of undefined")
    end).

(** [if (!id) { skip } else { body }] for a recorded message id. *)
Definition ifMissing {A : Type} (id : option Z) (skip : Prog A) (body : Z -> Prog A)
  : Prog A :=
  match id with
  | Some messageId => if JS.falsy id then skip else body messageId
  | None => skip
  end.

(** Lines 142-143. *)
Definition streamLinkHtml (userName rid : string) : string :=
  "<a href='https://twitch.tv/" ++ userName ++ "?rid=" ++ rid ++ "'>twitch.tv/"
    ++ userName ++ "</a>".

Definition notification (title userName rid : string) : string :=
  escape E title ++ " <b>| IN ONDA |</b> " ++ streamLinkHtml userName rid.

(** *** [update], the stream is offline (lines 88-128)

    The body of the loop over [Object.entries(state.groups)] (lines
    94-105): an unpin that fails is logged and otherwise ignored. *)
Definition unpinOne (bot channelName : string) (entry : string * option Z)
  : Prog unit :=
  let '(groupId, lastGroupMessageId) := entry in
  ifMissing lastGroupMessageId (Ret tt) (fun messageId =>
    sync (console log "Un-pinning notification!") ;;
    Await (unpinChatMessage bot (ChatStr groupId) messageId) (fun r =>
      match r with
      | Fulfilled _ => Ret tt
      | Rejected e =>
          sync (console warn ("Unable to unpin message " ++ messageOf e))
      end) ;;
    sync (assign channelName (on_groups (JS.set groupId None))) ;;
    await statusDb_write).

Definition offline (bot channelName : string) : Prog unit :=
  sync (console log "Not online!") ;;
  state <- theState channelName ;;
  forOf (JS.entries (groups state)) (unpinOne bot channelName).

(** Lines 149-158 and 159-168: edit the recorded messages of one of the two
    maps; [changes] is the local variable of that name. *)
Definition editAll (bot message complaint : string)
    (recorded : list (string * option Z)) (changes : bool) : Prog bool :=
  forOfWith recorded changes (fun '(chatId, lastMessageId) changes =>
    ifMissing lastMessageId
      (sync (console error complaint) ;; Ret changes)
      (fun messageId =>
         await (editMessageText bot (ChatStr chatId) messageId message) ;;
         Ret true)).

(** Lines 145-173: same stream, new title. *)
Definition titleChanged (bot channelName message : string) : Prog unit :=
  sync (console log "Updating alert title!") ;;
  state <- theState channelName ;;
  changes <- editAll bot message "Missing last message id in status! Skip..."
               (JS.entries (channels state)) false ;;
  state <- theState channelName ;;
  changes <- editAll bot message "Missing last group message id in status! Skip..."
               (JS.entries (groups state)) changes ;;
  if changes then await statusDb_write else Ret tt.

(** Lines 179-191, "Cleanup removed groups and channels".  Each loop
    deletes at most the key it is visiting, and the second loop walks
    [state.groups] while deleting from [state.channels], so walking the
    keys as they were when the loop started is what [for ... in] does. *)
Definition cleanupRemoved (channelName : string) (channelConfig : ConfigChannelEntry)
  : Prog unit :=
  state <- theState channelName ;;
  forOf (JS.keys (channels state)) (fun channelId =>
    if JS.includes (channelIds channelConfig) (JS.parseInt channelId)
    then Ret tt
    else sync (assign channelName (on_channels (JS.delete channelId)))) ;;
  state <- theState channelName ;;
  forOf (JS.keys (groups state)) (fun groupId =>
    if JS.includes (channelIds channelConfig) (JS.parseInt groupId)
    then Ret tt
    else sync (assign channelName (on_channels (JS.delete groupId)))).

(** Lines 193-220, "Send notification and pin message".  The message id
    pinned is [state.groups[groupId]], assigned on the line before. *)
Definition notify (bot channelName message : string)
    (channelConfig : ConfigChannelEntry) : Prog unit :=
  forOf (channelIds channelConfig) (fun channelId =>
    sendResult <- await (sendMessage bot (ChatNum channelId) message) ;;
    sync (assign channelName
            (on_channels (JS.set (JS.toString channelId) (Some sendResult))))) ;;
  forOf (groupIds channelConfig) (fun groupId =>
    sendResult <- await (sendMessage bot (ChatNum groupId) message) ;;
    sync (assign channelName
            (on_groups (JS.set (JS.toString groupId) (Some sendResult)))) ;;
    await (pinChatMessage bot (ChatNum groupId) sendResult)) ;;
  await statusDb_write.

(** *** [update], the stream is online (lines 130-220) *)
Definition online (bot channelName : string) (channelConfig : ConfigChannelEntry)
    (stream : HelixStream.t) : Prog unit :=
  let title := HelixStream.title stream in
  sync (console log ("Online: " ++ title)) ;;
  state <- theState channelName ;;
  if strict_eq (lastStreamTitle state) title
  then sync (console log "Already notified! Skip...")
  else
    sync (assign channelName (set_lastStreamTitle (Some title))) ;;
    rid <- sync (randomBytesHex 5) ;;
    let message := notification title (HelixStream.userName stream) rid in
    state <- theState channelName ;;
    if strict_eq (lastStreamId state) (HelixStream.id stream)
    then titleChanged bot channelName message
    else
      sync (assign channelName (set_lastStreamId (Some (HelixStream.id stream)))) ;;
      sync (console log "New stream detected! Notify!") ;;
      cleanupRemoved channelName channelConfig ;;
      notify bot channelName message channelConfig.

(** *** [update] from the point where the stream status is known
    (lines 88-220); [None] is "no stream", the channel is offline. *)
Definition reconcile (bot channelName : string) (channelConfig : ConfigChannelEntry)
    (stream : option HelixStream.t) : Prog unit :=
  match stream with
  | None => offline bot channelName
  | Some s => online bot channelName channelConfig s
  end.

(** *** [update] (lines 70-221)

    Lines 73-220, with the bot of the name [bot]. *)
Definition cycle (bot channelName : string) (channelConfig : ConfigChannelEntry)
  : Prog unit :=
  sync (console log ("Checking user " ++ channelName ++ "!")) ;;
  users <- await (getUsersByNames [channelName]) ;;
  match users with
  | [] => sync (console log "EMPTY RESULT!")
  | user :: _ =>
      let userId := HelixUser.id user in
      sync (console log ("UserId is " ++ userId ++ "!")) ;;
      stream <- await (getStreamByUserId userId) ;;
      reconcile bot channelName channelConfig stream
  end.

Definition update (channelName : string) (channelConfig : ConfigChannelEntry)
  : Prog unit :=
  bot <- getBot (bot channelConfig) ;;
  match bot with
  | Telegraf name => cycle name channelName channelConfig
  | NotABot name => withoutTelegram (cycle name channelName channelConfig)
  end.

(** *** [updateAll] (lines 240-257)

    The loop over the configured channels has no [try]: the first
    rejection of [fulfillWithTimeLimit] leaves [updateAll]. *)
Fixpoint updateEach (configured : list (string * ConfigChannelEntry)) (w : World)
  : Outcome unit * World :=
  match configured with
  | [] => (Ok tt, w)
  | (channel, channelConfig) :: rest =>
      match fulfillWithTimeLimit (15 * 1000) (update channel channelConfig) w with
      | (Ok _, w') => updateEach rest w'
      | (Thrown e, w') => (Thrown e, w')
      end
  end.

(** [config.channels[channel]] is truthy (line 247): the configuration
    has an entry of that name, or [Object.prototype] has a property of that
    name. *)
Definition hasEntry (channel : string) : bool :=
  match JS.get channel (Config.channels config) with
  | Some _ => true
  | None => JS.inherited channel
  end.

(** Lines 244-256, "Cleanup". *)
Definition removeUnconfigured : Prog unit :=
  names <- sync recordedNames ;;
  changes <- forOfWith names false (fun channel changes =>
    if hasEntry channel then Ret changes
    else
      sync (deleteState channel) ;;
      sync (console log ("Removing " ++ channel ++ " from db")) ;;
      Ret true) ;;
  if changes then await statusDb_write else Ret tt.

Definition updateAll (w : World) : Outcome unit * World :=
  match updateEach (JS.entries (Config.channels config)) w with
  | (Ok _, w') => exec removeUnconfigured w'
  | (Thrown e, w') => (Thrown e, w')
  end.

(** *** The top-level loop (lines 271-282)

    The argument of [setTimeout], in milliseconds. *)
Definition sleepDelay : N := 30 * 10000.

(** One turn of [while (running)]: a sweep inside [try]/[catch], then the
    sleep (which no shutdown request cuts short here). *)
Definition turn (w : World) : World :=
  let (result, w1) := updateAll w in
  let w2 := match result with
            | Ok _ => w1
            | Thrown e => print error (messageOf e) w1
            end in
  at_time (now w2 + sleepDelay)%N w2.

(** [running] is only cleared by SIGTERM; [turns] is how many times the
    loop goes round before that.  The loop itself does not wait for the
    cycles the timer has given up on, and they are not run on here: what
    they can do, whenever they go on, is [resumeDetached] for one of them
    and [processRun] for all the orders in which tasks take turns. *)
Fixpoint mainLoop (turns : nat) (w : World) : World :=
  match turns with
  | O => w
  | S n => mainLoop n (turn w)
  end.

End Program.

Arguments Finished {A} o.
Arguments Expired {A} rest.

(** ** Startup ([src/index.ts], lines 55-68)

    What [state.json] holds for an entity may lack fields (it may have been
    written by an earlier version of the program); properties other than the
    four of [ChannelState] are carried along and never read, and are left
    out here. *)
Module Stored.
Record t : Type := {
  lastStreamId : option (option string);
  lastStreamTitle : option (option string);
  channels : option (JS.Obj (option Z));
  groups : option (JS.Obj (option Z))
}.
End Stored.

(** [{lastStreamId: null, lastStreamTitle: null, channels: {}, groups: {},
    ...state}]: a field of [state] wins over the default; spreading
    [undefined] adds nothing. *)
Definition spreadOverDefaults (state : option Stored.t) : ChannelState :=
  let field {V : Type} (get : Stored.t -> option V) (default : V) : V :=
    match state with
    | Some s => match get s with
                | Some v => v
                | None => default
                end
    | None => default
    end in
  {| lastStreamId := field Stored.lastStreamId None;
     lastStreamTitle := field Stored.lastStreamTitle None;
     channels := field Stored.channels [];
     groups := field Stored.groups [] |}.

(** A record with all four fields, as an object of the file. *)
Definition asStored (s : ChannelState) : Stored.t :=
  {| Stored.lastStreamId := Some (lastStreamId s);
     Stored.lastStreamTitle := Some (lastStreamTitle s);
     Stored.channels := Some (channels s);
     Stored.groups := Some (groups s) |}.

(** [statusDb.data] after the loop of lines 58-67; [file] is what
    [statusDb.read()] found ([None]: no file, the data is [{}]).  The same
    value is then written back. *)
Definition startup (config : Config.t) (file : option (JS.Obj Stored.t))
  : JS.Obj Stored.t :=
  fold_left
    (fun db channel =>
       let state := JS.get channel db in
       JS.set channel (asStored (spreadOverDefaults state)) db)
    (JS.keys (Config.channels config))
    (match file with
     | Some db => db
     | None => []
     end).

(** ** Concrete surroundings, to run the program on *)

Module Sample.

(** The five replacements of html-escaper. *)
Fixpoint escapeHtml (s : string) : string :=
  match s with
  | EmptyString => EmptyString
  | String c s' =>
      (if Ascii.eqb c "&" then "&amp;"
       else if Ascii.eqb c "<" then "&lt;"
       else if Ascii.eqb c ">" then "&gt;"
       else if Ascii.eqb c "'" then "&#39;"
       else if (N_of_ascii c =? 34)%N then "&quot;"
       else String c EmptyString) ++ escapeHtml s'
  end.

(** A behaviour of the remote services: who exists, who is live, which
    calls are rejected, and how long each call takes. *)
Record Script : Type := {
  users : string -> list HelixUser.t;
  stream : string -> option HelixStream.t;
  rejects : forall X : Type, Ext X -> bool;
  latency : forall X : Type, Ext X -> N
}.

(** Telegram numbers the messages it accepts; here the number is taken
    from the count of calls made so far. *)
Definition reply (sc : Script) (X : Type) (h : list Event) (c : Ext X) : Settled X :=
  if rejects sc X c then Rejected (Error "400: Bad Request")
  else
    match c in Ext X return Settled X with
    | getUsersByNames names =>
        Fulfilled (match names with
                   | name :: _ => users sc name
                   | [] => []
                   end)
    | getStreamByUserId userId => Fulfilled (stream sc userId)
    | sendMessage _ _ _ => Fulfilled (1000 + Z.of_nat (List.length h))
    | editMessageText _ _ _ _ => Fulfilled tt
    | pinChatMessage _ _ _ => Fulfilled tt
    | unpinChatMessage _ _ _ => Fulfilled tt
    | statusDb_write => Fulfilled tt
    end.

Definition externals (sc : Script) : Externals :=
  {| escape := escapeHtml;
     randomHex := fun _ _ => "00aa11bb22";
     respond := fun X h c => (reply sc X h c, latency sc X c) |}.

Definition fooUser : HelixUser.t := {| HelixUser.id := "42" |}.

Definition liveStream (id title : string) : HelixStream.t :=
  {| HelixStream.id := id; HelixStream.title := title; HelixStream.userName := "foo" |}.

(** Everything succeeds, every call takes 100 ms, "foo" streams [s]. *)
Definition calm (s : option HelixStream.t) : Script :=
  {| users := fun name => if String.eqb name "foo" then [fooUser] else [];
     stream := fun _ => s;
     rejects := fun _ _ => false;
     latency := fun _ _ => 100%N |}.

(** Services that accept everything. *)
Definition quiet : Externals := externals (calm None).

(** The configuration of the end-to-end scenario: "foo" mirrored to the
    channel 100 and the group 200. *)
Definition fooEntry : ConfigChannelEntry :=
  {| groupIds := [200]; channelIds := [100]; bot := "main" |}.

Definition config : Config.t :=
  {| Config.twitchClientId := "id"; Config.twitchClientToken := "secret";
     Config.channels := [("foo", fooEntry)];
     Config.bots := [("main", "123:abc")] |}.

Definition fresh : ChannelState :=
  {| lastStreamId := None; lastStreamTitle := None; channels := []; groups := [] |}.

Definition world (db : StatusDb) : World :=
  {| data := db; disk := db; history := []; output := []; draws := O; now := 0%N;
     detached := [] |}.

(** The state after "foo" went live with the stream "a" titled "Hello". *)
Definition notified : ChannelState :=
  {| lastStreamId := Some "a"; lastStreamTitle := Some "Hello";
     channels := [("100", Some 1002)]; groups := [("200", Some 1003)] |}.

(** The same with entries left from an earlier configuration, which had
    the channel 999 and the group 888 as well. *)
Definition stale : ChannelState :=
  {| lastStreamId := Some "a"; lastStreamTitle := Some "Hello";
     channels := [("100", Some 1002); ("999", Some 1004)];
     groups := [("200", Some 1003); ("888", Some 1005)] |}.

(** Telegram rejects what is sent to the chat [chat]. *)
Definition rejectsSendsTo (chat : Z) (X : Type) (c : Ext X) : bool :=
  match c with
  | sendMessage _ (ChatNum n) _ => Z.eqb n chat
  | _ => false
  end.

Definition refusing (chat : Z) (s : option HelixStream.t) : Script :=
  {| users := fun name => [fooUser];
     stream := fun _ => s;
     rejects := rejectsSendsTo chat;
     latency := fun _ _ => 100%N |}.

(** Telegram takes 20 seconds to answer a send. *)
Definition sendLatency (X : Type) (c : Ext X) : N :=
  match c with
  | sendMessage _ _ _ => 20000%N
  | _ => 100%N
  end.

Definition sluggish (s : option HelixStream.t) : Script :=
  {| users := fun name => [fooUser];
     stream := fun _ => s;
     rejects := fun _ _ => false;
     latency := sendLatency |}.

(** Twitch takes 20 seconds to answer anything. *)
Definition stalled : Script :=
  {| users := fun name => [fooUser];
     stream := fun _ => None;
     rejects := fun _ _ => false;
     latency := fun _ _ => 20000%N |}.

(** "foo" mirrored to one channel and three groups. *)
Definition wideEntry : ConfigChannelEntry :=
  {| groupIds := [200; 201; 202]; channelIds := [100]; bot := "main" |}.

(** Two tracked entities. *)
Definition barEntry : ConfigChannelEntry :=
  {| groupIds := [400]; channelIds := [300]; bot := "main" |}.

Definition twoChannels : Config.t :=
  {| Config.twitchClientId := "id"; Config.twitchClientToken := "secret";
     Config.channels := [("foo", fooEntry); ("bar", barEntry)];
     Config.bots := [("main", "123:abc")] |}.

(** An entry that names a bot the configuration does not have. *)
Definition ghostEntry : ConfigChannelEntry :=
  {| groupIds := [200]; channelIds := [100]; bot := "ghost" |}.


(** Telegram rejects the edits of messages in the chat [chat]. *)
Definition rejectsEditsIn (chat : string) (X : Type) (c : Ext X) : bool :=
  match c with
  | editMessageText _ (ChatStr k) _ _ => String.eqb k chat
  | _ => false
  end.

Definition editRefusing (chat : string) (s : option HelixStream.t) : Script :=
  {| users := fun name => [fooUser];
     stream := fun _ => s;
     rejects := rejectsEditsIn chat;
     latency := fun _ _ => 100%N |}.

(** Twitch rejects every lookup of a user. *)
Definition rejectsUserLookups (X : Type) (c : Ext X) : bool :=
  match c with
  | getUsersByNames _ => true
  | _ => false
  end.

Definition twitchDown : Script :=
  {| users := fun name => [fooUser];
     stream := fun _ => None;
     rejects := rejectsUserLookups;
     latency := fun _ _ => 100%N |}.

(** "foo" after its stream ended: the group entry is there, cleared. *)
Definition unpinnedState : ChannelState :=
  {| lastStreamId := Some "a"; lastStreamTitle := Some "Hello";
     channels := [("100", Some 1002)]; groups := [("200", None)] |}.

End Sample.

(** ** Vocabulary of the statements *)

Local Open Scope list_scope.

(** Message ids Telegram hands out are positive; [0] in the state file would
    be read as "no message" by [!id], like [null]. *)
Definition validIds (o : JS.Obj (option Z)) : Prop :=
  forall k, ~ In (k, Some 0) o.

(** The entries of a list that hold a message id. *)
Definition withId (l : list (string * option Z)) : list (string * Z) :=
  flat_map (fun kv => match snd kv with
                      | Some m => [(fst kv, m)]
                      | None => []
                      end) l.

(** The chats of a map that have a message id recorded, in enumeration
    order. *)
Definition recorded (o : JS.Obj (option Z)) : list (string * Z) :=
  withId (JS.entries o).

(** The entries that hold [null]. *)
Definition withoutId (l : list (string * option Z)) : list (string * option Z) :=
  filter (fun kv => match snd kv with
                    | Some _ => false
                    | None => true
                    end) l.

Definition missing (o : JS.Obj (option Z)) : list (string * option Z) :=
  withoutId (JS.entries o).

(** The effect of a synchronous operation on [statusDb.data]. *)
Definition dataAfter {X : Type} (op : Mem X) (db : StatusDb) : StatusDb :=
  match op with
  | assign name f => JS.update name f db
  | deleteState name => JS.delete name db
  | _ => db
  end.

(** The kinds of awaited calls. *)
Inductive Kind : Type :=
| UserLookup | StreamLookup | SendCall | EditCall | PinCall | UnpinCall | WriteCall.

Definition kindOf {X : Type} (c : Ext X) : Kind :=
  match c with
  | getUsersByNames _ => UserLookup
  | getStreamByUserId _ => StreamLookup
  | sendMessage _ _ _ => SendCall
  | editMessageText _ _ _ _ => EditCall
  | pinChatMessage _ _ _ => PinCall
  | unpinChatMessage _ _ _ => UnpinCall
  | statusDb_write => WriteCall
  end.

Definition kindOfEvent (e : Event) : Kind :=
  match e with
  | Ev c _ => kindOf c
  end.

Definition unpinOrWrite (k : Kind) : bool :=
  match k with
  | UnpinCall | WriteCall => true
  | _ => false
  end.

Definition editOrWrite (k : Kind) : bool :=
  match k with
  | EditCall | WriteCall => true
  | _ => false
  end.

Definition anyCall (k : Kind) : bool := true.


(** Whatever the services answer, every assignment the task can make keeps
    the property [inv] of [statusDb.data], and every call it can make is of an
    [allowed] kind. *)
Inductive Keeps (inv : StatusDb -> Prop) (allowed : Kind -> bool) {A : Type}
  : Prog A -> Prop :=
| Keeps_Ret (a : A) : Keeps inv allowed (Ret a)
| Keeps_Throw (e : JsError) : Keeps inv allowed (Throw e)
| Keeps_Sync {X : Type} (op : Mem X) (k : X -> Prog A) :
    (forall db, inv db -> inv (dataAfter op db)) ->
    (forall x, Keeps inv allowed (k x)) ->
    Keeps inv allowed (Sync op k)
| Keeps_Await {X : Type} (c : Ext X) (k : Settled X -> Prog A) :
    allowed (kindOf c) = true ->
    (forall r, Keeps inv allowed (k r)) ->
    Keeps inv allowed (Await c k).

(** The record of [name] exists and satisfies [P]. *)
Definition stateIs (name : string) (P : ChannelState -> Prop) (db : StatusDb) : Prop :=
  exists st, JS.get name db = Some st /\ P st.

(** What [cleanupRemoved] leaves of [state.channels]. *)
Definition configuredOnly (channelConfig : ConfigChannelEntry)
    (o : JS.Obj (option Z)) : JS.Obj (option Z) :=
  filter (fun kv => JS.includes (channelIds channelConfig) (JS.parseInt (fst kv))) o.

(** Recording the message ids [ids] for the chats [chats], in order. *)
Definition recordAll (chats : list Z) (ids : list Z) (o : JS.Obj (option Z))
  : JS.Obj (option Z) :=
  fold_left (fun o' cm => JS.set (JS.toString (fst cm)) (Some (snd cm)) o')
    (combine chats ids) o.

(** Setting the recorded id of each of the chats [ids] to [null]. *)
Definition clearAll (ids : list (string * Z)) (o : JS.Obj (option Z))
  : JS.Obj (option Z) :=
  fold_left (fun o' gm => JS.set (fst gm) None o') ids o.

(** Assumptions on the services: calls of one kind are never rejected. *)
Definition writesSucceed (E : Externals) : Prop :=
  forall h, fst (respond E unit h statusDb_write) = Fulfilled tt.

Definition editsSucceed (E : Externals) : Prop :=
  forall h bot chat m text,
    fst (respond E unit h (editMessageText bot chat m text)) = Fulfilled tt.

Definition sendsSucceed (E : Externals) : Prop :=
  forall h bot chat text,
    exists m, fst (respond E Z h (sendMessage bot chat text)) = Fulfilled m.

Definition pinsSucceed (E : Externals) : Prop :=
  forall h bot chat m,
    fst (respond E unit h (pinChatMessage bot chat m)) = Fulfilled tt.

(** The calls of the offline branch for one group: the unpin, settled as
    [snd gm], and the write that follows it. *)
Definition unpinned (bot : string) (gm : (string * Z) * Settled unit) : list Event :=
  [Ev (unpinChatMessage bot (ChatStr (fst (fst gm))) (snd (fst gm))) (snd gm);
   Ev statusDb_write (Fulfilled tt)].

(** The edit of the message [snd cm] of the chat [fst cm], accepted. *)
Definition edited (bot message : string) (cm : string * Z) : Event :=
  Ev (editMessageText bot (ChatStr (fst cm)) (snd cm) message) (Fulfilled tt).

Definition nonEmpty {A : Type} (l : list A) : bool :=
  match l with
  | [] => false
  | _ => true
  end.

(** The message sent to the chat [fst cm], accepted and numbered [snd cm]. *)
Definition sent (bot message : string) (cm : Z * Z) : Event :=
  Ev (sendMessage bot (ChatNum (fst cm)) message) (Fulfilled (snd cm)).

(** The same for a group, followed by the pin of that message. *)
Definition sentAndPinned (bot message : string) (gm : Z * Z) : list Event :=
  [sent bot message gm;
   Ev (pinChatMessage bot (ChatNum (fst gm)) (snd gm)) (Fulfilled tt)].

(** The time budget of [name]'s cycle runs out while the cycle is still
    waiting for Twitch: the answer to the user lookup, or, the user found,
    the answer to the stream lookup, is due later than 15 seconds after the
    cycle began. *)
Definition expiresWhileResolving (E : Externals) (name : string) (w : World) : Prop :=
  let lookup := getUsersByNames [name] in
  let answer := respond E _ (history w) lookup in
  (15 * 1000 < snd answer)%N
  \/ exists user others,
       fst answer = Fulfilled (user :: others)
       /\ (15 * 1000
           < snd answer
             + snd (respond E _ (history w ++ [Ev lookup (fst answer)])
                      (getStreamByUserId (HelixUser.id user))))%N.

(** *** Decimal numerals *)

(** The number a decimal numeral reads as, most significant digit first. *)
Fixpoint digitsValue (d : Decimal.uint) (acc : N) : N :=
  match d with
  | Decimal.Nil => acc
  | Decimal.D0 d => digitsValue d (10 * acc + 0)
  | Decimal.D1 d => digitsValue d (10 * acc + 1)
  | Decimal.D2 d => digitsValue d (10 * acc + 2)
  | Decimal.D3 d => digitsValue d (10 * acc + 3)
  | Decimal.D4 d => digitsValue d (10 * acc + 4)
  | Decimal.D5 d => digitsValue d (10 * acc + 5)
  | Decimal.D6 d => digitsValue d (10 * acc + 6)
  | Decimal.D7 d => digitsValue d (10 * acc + 7)
  | Decimal.D8 d => digitsValue d (10 * acc + 8)
  | Decimal.D9 d => digitsValue d (10 * acc + 9)
  end%N.

(** *** The lookups of [update] (lines 70-87) *)

(** "Either lookup of [name]'s cycle is rejected with [e]." *)
Definition lookupRejected (E : Externals) (name : string) (w : World) (e : JsError)
  : Prop :=
  let lookup := getUsersByNames [name] in
  let answer := fst (respond E _ (history w) lookup) in
  answer = Rejected e
  \/ exists user others,
       answer = Fulfilled (user :: others)
       /\ fst (respond E _ (history w ++ [Ev lookup answer])
                 (getStreamByUserId (HelixUser.id user))) = Rejected e.

Definition isLookup (k : Kind) : bool :=
  match k with
  | UserLookup | StreamLookup => true
  | _ => false
  end.

(** *** Sweeps *)

(** [config.channels[name]] is truthy. *)
Definition isConfigured (config : Config.t) (name : string) : bool :=
  match JS.get name (Config.channels config) with
  | Some _ => true
  | None => false
  end.

(** *** Tasks that take turns

    A task the timer has given up on goes on when its pending call settles,
    during the sleep or in the middle of a later sweep.  What follows is
    every way the tasks of the program can take turns, and then more: a
    task is stopped after any operation, not only where it awaits. *)

(** One step of one task: a synchronous operation, or the settlement of
    the call it is suspended on, in whatever way.  Other tasks may have run
    while that call was pending and the clock has moved, but the settlement
    itself leaves the data in memory alone. *)
Definition taskStep (E : Externals) {A : Type} (p : Prog A) (w : World)
    (p' : Prog A) (w' : World) : Prop :=
  match p with
  | Ret _ | Throw _ => False
  | Sync op k => p' = k (fst (step_sync E op w)) /\ w' = snd (step_sync E op w)
  | Await c k => exists r, p' = k r /\ data w' = data w
  end.

(** The process: the world and the tasks under way.  The sweep starts a
    cycle for an entry of the configuration (line 242) or its cleanup (lines
    245-256); a task takes a step; or something happens that does not
    touch the data in memory (the loop logs an error, time passes). *)
Inductive processStep (E : Externals) (config : Config.t)
  : World * list (Prog unit) -> World * list (Prog unit) -> Prop :=
| startCycle (w : World) (tasks : list (Prog unit)) (channel : string)
    (channelConfig : ConfigChannelEntry) :
    In (channel, channelConfig) (JS.entries (Config.channels config)) ->
    processStep E config (w, tasks) (w, tasks ++ [update E config channel channelConfig])
| startCleanup (w : World) (tasks : list (Prog unit)) :
    processStep E config (w, tasks) (w, tasks ++ [removeUnconfigured config])
| runTask (w w' : World) (before after : list (Prog unit)) (p p' : Prog unit) :
    taskStep E p w p' w' ->
    processStep E config (w, before ++ p :: after) (w', before ++ p' :: after)
| elsewhere (w w' : World) (tasks : list (Prog unit)) :
    data w' = data w ->
    processStep E config (w, tasks) (w', tasks).

Inductive processRun (E : Externals) (config : Config.t)
  : World * list (Prog unit) -> World * list (Prog unit) -> Prop :=
| run_here (s : World * list (Prog unit)) : processRun E config s s
| run_on (s1 s2 s3 : World * list (Prog unit)) :
    processStep E config s1 s2 -> processRun E config s2 s3 ->
    processRun E config s1 s3.

(** Two worlds that differ at most in what the clock shows. *)
Definition sameButClock (w1 w2 : World) : Prop :=
  data w1 = data w2 /\ disk w1 = disk w2 /\ history w1 = history w2
  /\ output w1 = output w2 /\ draws w1 = draws w2 /\ detached w1 = detached w2.

(** ** JavaScript, on examples *)

Example toString_examples :
  JS.toString (-1001234567890) = "-1001234567890"%string
  /\ JS.toString 0 = "0"%string
  /\ JS.toString 100 = "100"%string.
Proof. repeat split; reflexivity. Qed.

Example parseInt_examples :
  JS.parseInt "-1001234567890" = Some (-1001234567890)
  /\ JS.parseInt "  12px" = Some 12
  /\ JS.parseInt "0x1f" = Some 31
  /\ JS.parseInt "abc" = None
  /\ JS.parseInt "" = None.
Proof. repeat split; reflexivity. Qed.

(** Beyond the safe range [parseInt] gives the nearest Number; a no-break
    space (U+00A0, two bytes) is white space. *)
Example parseInt_edges :
  JS.parseInt "9007199254740993" = Some 9007199254740992
  /\ JS.parseInt "9007199254740995" = Some 9007199254740996
  /\ JS.parseInt "-9007199254740993" = Some (-9007199254740992)
  /\ JS.parseInt (String (ascii_of_N 194) (String (ascii_of_N 160) "100")) = Some 100
  /\ JS.inherited "constructor" = true
  /\ JS.inherited "foo" = false.
Proof. repeat split; vm_compute; reflexivity. Qed.

(** Array indices first, in ascending order, then the rest as created. *)
Example entries_order :
  JS.keys [("-100"%string, 1); ("7"%string, 2); ("b"%string, 3);
           ("3"%string, 4); ("007"%string, 5)]
  = ["3"; "7"; "-100"; "b"; "007"]%string.
Proof. reflexivity. Qed.

(** ** Objects *)

Section ObjectFacts.
Context {V : Type}.
Implicit Types (o : JS.Obj V) (k : string).

Lemma get_set_same k (v : V) o : JS.get k (JS.set k v o) = Some v.
Proof.
  induction o as [|[k' v'] o IH]; simpl.
  - now rewrite String.eqb_refl.
  - destruct (String.eqb k' k) eqn:Hk; simpl; rewrite Hk; auto.
Qed.

Lemma get_set_other k k' (v : V) o :
  k' <> k -> JS.get k' (JS.set k v o) = JS.get k' o.
Proof.
  intros Hne. induction o as [|[k0 v0] o IH]; simpl.
  - destruct (String.eqb k k') eqn:Hk; auto.
    apply String.eqb_eq in Hk. congruence.
  - destruct (String.eqb k0 k) eqn:Hk; simpl.
    + apply String.eqb_eq in Hk. subst k0.
      destruct (String.eqb_spec k k'); [congruence|reflexivity].
    + now rewrite IH.
Qed.

Lemma get_update k k' (f : V -> V) o :
  JS.get k' (JS.update k f o)
  = if String.eqb k k' then option_map f (JS.get k' o) else JS.get k' o.
Proof.
  induction o as [|[k0 v0] o IH]; simpl.
  - now destruct (String.eqb k k').
  - destruct (String.eqb k0 k) eqn:Hk; simpl.
    + apply String.eqb_eq in Hk. subst k0.
      destruct (String.eqb k k'); reflexivity.
    + rewrite IH. destruct (String.eqb k0 k') eqn:Hk'; auto.
      apply String.eqb_eq in Hk'. subst k0.
      now rewrite String.eqb_sym, Hk.
Qed.

Lemma get_update_same k (f : V -> V) o :
  JS.get k (JS.update k f o) = option_map f (JS.get k o).
Proof. rewrite get_update. now rewrite String.eqb_refl. Qed.

Lemma get_In k (v : V) o : JS.get k o = Some v -> In (k, v) o.
Proof.
  induction o as [|[k' v'] o IH]; simpl; [discriminate|].
  destruct (String.eqb k' k) eqn:Hk.
  - apply String.eqb_eq in Hk. intros [= ->]. left. now subst.
  - auto.
Qed.

Lemma In_get k (v : V) o : In (k, v) o -> exists v', JS.get k o = Some v'.
Proof.
  induction o as [|[k' v'] o IH]; simpl; [tauto|].
  intros [[= -> ->]|Hin].
  - rewrite String.eqb_refl. eauto.
  - destruct (String.eqb k' k); eauto.
Qed.

Lemma delete_absent k o :
  (forall v, ~ In (k, v) o) -> JS.delete k o = o.
Proof.
  induction o as [|[k' v'] o IH]; simpl; intros Habs; [reflexivity|].
  destruct (String.eqb k' k) eqn:Hk.
  - apply String.eqb_eq in Hk. subst k'. exfalso. apply (Habs v'). now left.
  - f_equal. apply IH. intros v Hin. apply (Habs v). now right.
Qed.

Lemma delete_filter k (p : string * V -> bool) o :
  JS.delete k (filter p o)
  = filter (fun kv => p kv && negb (String.eqb (fst kv) k)) o.
Proof.
  induction o as [|[k' v'] o IH]; simpl; [reflexivity|].
  destruct (p (k', v')); simpl.
  - destruct (String.eqb k' k); simpl; now rewrite IH.
  - exact IH.
Qed.

(** *** Enumeration lists every property once *)

Lemma In_insert_by_index (e e' : N * (string * V)) l :
  In e' (JS.insert_by_index e l) <-> e' = e \/ In e' l.
Proof.
  induction l as [|x l IH]; simpl.
  - intuition congruence.
  - destruct (fst e <=? fst x)%N; simpl; rewrite ?IH; intuition congruence.
Qed.

Lemma In_index_properties n (kv : string * V) o :
  In (n, kv) (JS.index_properties o)
  <-> In kv o /\ JS.array_index (fst kv) = Some n.
Proof.
  induction o as [|[k v] o IH]; simpl.
  - tauto.
  - destruct (JS.array_index k) eqn:Hk.
    + rewrite In_insert_by_index, IH. split.
      * intros [[= -> ->]|[Hin Hi]]; simpl; auto.
      * intros [[<-|Hin] Hi]; simpl in *; [left|right; auto].
        congruence.
    + rewrite IH. split.
      * intros [Hin Hi]; auto.
      * intros [[<-|Hin] Hi]; simpl in *; [congruence|auto].
Qed.

Lemma In_entries (kv : string * V) o : In kv (JS.entries o) <-> In kv o.
Proof.
  unfold JS.entries, JS.string_properties.
  rewrite in_app_iff, in_map_iff, filter_In. split.
  - intros [[[n kv'] [Heq Hin]]|[Hin _]]; auto.
    simpl in Heq. subst kv'. now apply In_index_properties in Hin.
  - intros Hin. destruct (JS.array_index (fst kv)) eqn:Hi.
    + left. exists (n, kv). split; auto. now apply In_index_properties.
    + right. auto.
Qed.

Lemma In_keys k o : In k (JS.keys o) <-> exists v, In (k, v) o.
Proof.
  unfold JS.keys. rewrite in_map_iff. split.
  - intros [[k' v] [Hk Hin]]. simpl in Hk. subst k'.
    exists v. now apply In_entries.
  - intros [v Hin]. exists (k, v). split; auto. now apply In_entries.
Qed.

End ObjectFacts.

(** *** Property keys of chat ids *)

Lemma toString_inj (a b : Z) : JS.toString a = JS.toString b -> a = b.
Proof.
  unfold JS.toString. intros H.
  assert (Hnn : forall z, Z.to_int z <> Decimal.Pos Decimal.Nil
                          /\ Z.to_int z <> Decimal.Neg Decimal.Nil).
  { intros [|p|p]; simpl; split; try discriminate;
      intros [= Hp]; now apply DecimalPos.Unsigned.to_uint_nonnil in Hp. }
  assert (Hint : Z.to_int a = Z.to_int b).
  { destruct (Hnn a) as [Ha1 Ha2]. destruct (Hnn b) as [Hb1 Hb2].
    pose proof (NilZero.isi _ Ha1 Ha2) as Ia.
    pose proof (NilZero.isi _ Hb1 Hb2) as Ib.
    rewrite H in Ia. congruence. }
  rewrite <- (DecimalZ.of_to a), <- (DecimalZ.of_to b). now rewrite Hint.
Qed.

Lemma recordAll_cons (c m : Z) (chats ids : list Z) (o : JS.Obj (option Z)) :
  recordAll (c :: chats) (m :: ids) o
  = recordAll chats ids (JS.set (JS.toString c) (Some m) o).
Proof. reflexivity. Qed.

Lemma get_recordAll_other (k : string) (chats ids : list Z) (o : JS.Obj (option Z)) :
  ~ In k (map JS.toString chats) ->
  JS.get k (recordAll chats ids o) = JS.get k o.
Proof.
  revert ids o.
  induction chats as [|c chats IH]; intros ids o Hk; [reflexivity|].
  destruct ids as [|m ids]; [reflexivity|].
  rewrite recordAll_cons, IH.
  - apply get_set_other. intros ->. apply Hk. now left.
  - intros Hin. apply Hk. now right.
Qed.

(** With distinct chat ids, each chat ends up with the id recorded for it. *)
Lemma get_recordAll (chats ids : list Z) (o : JS.Obj (option Z)) (c m : Z) :
  NoDup chats ->
  In (c, m) (combine chats ids) ->
  JS.get (JS.toString c) (recordAll chats ids o) = Some (Some m).
Proof.
  revert ids o. induction chats as [|c0 chats IH]; intros ids o Hnd Hin;
    [destruct Hin|].
  destruct ids as [|m0 ids]; [destruct Hin|].
  inversion Hnd as [|? ? Hc0 Hnd']; subst.
  rewrite recordAll_cons. destruct Hin as [[= -> ->]|Hin].
  - rewrite get_recordAll_other; [apply get_set_same|].
    rewrite in_map_iff. intros (c' & Heq & Hc'). apply toString_inj in Heq.
    now subst c'.
  - now apply IH.
Qed.

(** ** Running tasks *)

Create HintDb keeps.

Section Running.

Variable E : Externals.

Lemma exec_bind {A B : Type} (m : Prog A) (f : A -> Prog B) (w : World) :
  exec E (bind m f) w
  = match exec E m w with
    | (Ok a, w') => exec E (f a) w'
    | (Thrown e, w') => (Thrown e, w')
    end.
Proof.
  revert w. induction m as [a|e|X op k IH|X c k IH]; intros w; simpl.
  - reflexivity.
  - reflexivity.
  - destruct (step_sync E op w) as [x w']. apply IH.
  - destruct (respond E X (history w) c) as [r dt]. apply IH.
Qed.

Lemma exec_sync {X : Type} (op : Mem X) (w : World) :
  exec E (sync op) w = (Ok (fst (step_sync E op w)), snd (step_sync E op w)).
Proof. unfold sync. simpl. now destruct (step_sync E op w). Qed.

Lemma exec_await {X : Type} (c : Ext X) (w : World) :
  exec E (await c) w
  = (match fst (respond E X (history w) c) with
     | Fulfilled x => Ok x
     | Rejected e => Thrown e
     end,
     settled c (fst (respond E X (history w) c))
       (snd (respond E X (history w) c)) w).
Proof.
  unfold await. simpl. destruct (respond E X (history w) c) as [[x|e] dt]; reflexivity.
Qed.

Lemma exec_theState (name : string) (w : World) :
  exec E (theState name) w
  = (match JS.get name (data w) with
     | Some st => Ok st
     | None => Thrown (TypeError "Cannot read properties of undefined")
     end, w).
Proof. unfold theState. simpl. now destruct (JS.get name (data w)). Qed.

Lemma data_step_sync {X : Type} (op : Mem X) (w : World) :
  data (snd (step_sync E op w)) = dataAfter op (data w).
Proof. destruct op; reflexivity. Qed.

(** *** What a task keeps, however its calls settle *)

Section Keeping.

Variable inv : StatusDb -> Prop.
Variable allowed : Kind -> bool.

Lemma Keeps_exec {A : Type} (p : Prog A) :
  Keeps inv allowed p -> forall w, inv (data w) -> inv (data (snd (exec E p w))).
Proof.
  induction 1 as [a|e|X op k Hop Hk IH|X c k Hc Hk IH]; intros w Hw; simpl; auto.
  - destruct (step_sync E op w) as [x w'] eqn:Hs. apply IH.
    replace w' with (snd (step_sync E op w)) by now rewrite Hs.
    rewrite data_step_sync. auto.
  - destruct (respond E X (history w) c) as [r dt]. apply IH. exact Hw.
Qed.

Lemma Keeps_history {A : Type} (p : Prog A) :
  Keeps inv allowed p ->
  forall w, exists evs,
    history (snd (exec E p w)) = history w ++ evs
    /\ Forall (fun e => allowed (kindOfEvent e) = true) evs.
Proof.
  induction 1 as [a|e|X op k Hop Hk IH|X c k Hc Hk IH]; intros w; simpl.
  - exists []. now rewrite app_nil_r.
  - exists []. now rewrite app_nil_r.
  - destruct (step_sync E op w) as [x w'] eqn:Hs.
    destruct (IH x w') as (evs & Hh & Hall). exists evs. split; [|exact Hall].
    rewrite Hh. f_equal.
    replace w' with (snd (step_sync E op w)) by now rewrite Hs.
    now destruct op.
  - destruct (respond E X (history w) c) as [r dt].
    destruct (IH r (settled c r dt w)) as (evs & Hh & Hall).
    exists (Ev c r :: evs). split.
    + rewrite Hh. cbn [history settled]. now rewrite <- app_assoc.
    + constructor; auto.
Qed.

Lemma Keeps_bind {A B : Type} (m : Prog A) (f : A -> Prog B) :
  Keeps inv allowed m -> (forall a, Keeps inv allowed (f a)) -> Keeps inv allowed (bind m f).
Proof.
  induction 1; intros Hf; simpl; auto; constructor; auto.
Qed.

Lemma Keeps_forOf {A : Type} (xs : list A) (body : A -> Prog unit) :
  (forall x, Keeps inv allowed (body x)) -> Keeps inv allowed (forOf xs body).
Proof.
  intros Hb. induction xs; simpl; [constructor|].
  apply Keeps_bind; auto.
Qed.

Lemma Keeps_forOfWith {A S : Type} (xs : list A) (s : S) (body : A -> S -> Prog S) :
  (forall x s', Keeps inv allowed (body x s')) -> Keeps inv allowed (forOfWith xs s body).
Proof.
  intros Hb. revert s. induction xs; intros s; simpl; [constructor|].
  apply Keeps_bind; auto.
Qed.

Lemma Keeps_console (level : Level) (line : string) :
  Keeps inv allowed (sync (console level line)).
Proof. constructor; [auto|constructor]. Qed.

Lemma Keeps_draw (n : nat) : Keeps inv allowed (sync (randomBytesHex n)).
Proof. constructor; [auto|constructor]. Qed.

Lemma Keeps_await {X : Type} (c : Ext X) :
  allowed (kindOf c) = true -> Keeps inv allowed (await c).
Proof. intros Hc. constructor; [exact Hc|]. intros [x|e]; constructor. Qed.

Lemma Keeps_theState (name : string) : Keeps inv allowed (theState name).
Proof. constructor; [auto|]. intros [st|]; constructor. Qed.

Lemma Keeps_assign (name : string) (f : ChannelState -> ChannelState) :
  (forall db, inv db -> inv (JS.update name f db)) ->
  Keeps inv allowed (sync (assign name f)).
Proof. intros Hf. constructor; [exact Hf|constructor]. Qed.

Lemma Keeps_ifMissing {A : Type} (id : option Z) (skip : Prog A) (body : Z -> Prog A) :
  Keeps inv allowed skip -> (forall m, Keeps inv allowed (body m)) ->
  Keeps inv allowed (ifMissing id skip body).
Proof.
  intros Hs Hb. unfold ifMissing. destruct id; auto.
  destruct (JS.falsy (Some z)); auto.
Qed.

#[local] Hint Resolve Keeps_console Keeps_await Keeps_theState : keeps.
#[local] Hint Constructors Keeps : keeps.

Lemma Keeps_offline (name bot : string) :
  (forall f db, inv db -> inv (JS.update name (on_groups f) db)) ->
  allowed UnpinCall = true -> allowed WriteCall = true ->
  Keeps inv allowed (offline bot name).
Proof.
  intros HI Hu Hw. unfold offline.
  apply Keeps_bind; [auto with keeps|intros _].
  apply Keeps_bind; [auto with keeps|intros st].
  apply Keeps_forOf. intros [groupId id]. unfold unpinOne.
  apply Keeps_ifMissing; [constructor|intros m].
  apply Keeps_bind; [auto with keeps|intros _].
  apply Keeps_bind.
  { constructor; [exact Hu|]. intros [x|e]; auto with keeps. }
  intros _. apply Keeps_bind; [apply Keeps_assign; auto|intros _].
  auto with keeps.
Qed.

Lemma Keeps_editAll (bot message complaint : string)
    (entries : list (string * option Z)) (changes : bool) :
  allowed EditCall = true ->
  Keeps inv allowed (editAll bot message complaint entries changes).
Proof.
  intros He. unfold editAll. apply Keeps_forOfWith. intros [chatId id] c.
  apply Keeps_ifMissing.
  - apply Keeps_bind; auto with keeps.
  - intros m. apply Keeps_bind; auto with keeps.
Qed.

Lemma Keeps_titleChanged (bot name message : string) :
  allowed EditCall = true -> allowed WriteCall = true ->
  Keeps inv allowed (titleChanged bot name message).
Proof.
  intros He Hw. unfold titleChanged.
  apply Keeps_bind; [auto with keeps|intros _].
  apply Keeps_bind; [auto with keeps|intros st].
  apply Keeps_bind; [now apply Keeps_editAll|intros c].
  apply Keeps_bind; [auto with keeps|intros st'].
  apply Keeps_bind; [now apply Keeps_editAll|intros c'].
  destruct c'; auto with keeps.
Qed.

Lemma Keeps_cleanupRemoved (name : string) (cfg : ConfigChannelEntry) :
  (forall f db, inv db -> inv (JS.update name (on_channels f) db)) ->
  Keeps inv allowed (cleanupRemoved name cfg).
Proof.
  intros HI. unfold cleanupRemoved.
  apply Keeps_bind; [auto with keeps|intros st].
  apply Keeps_bind.
  { apply Keeps_forOf. intros k.
    destruct (JS.includes _ _); [constructor|apply Keeps_assign; auto]. }
  intros _. apply Keeps_bind; [auto with keeps|intros st'].
  apply Keeps_forOf. intros k.
  destruct (JS.includes _ _); [constructor|apply Keeps_assign; auto].
Qed.

Lemma Keeps_notify (bot name message : string) (cfg : ConfigChannelEntry) :
  (forall f db, inv db -> inv (JS.update name (on_channels f) db)) ->
  (forall f db, inv db -> inv (JS.update name (on_groups f) db)) ->
  allowed SendCall = true -> allowed PinCall = true -> allowed WriteCall = true ->
  Keeps inv allowed (notify bot name message cfg).
Proof.
  intros HIc HIg Hs Hp Hw. unfold notify.
  apply Keeps_bind.
  { apply Keeps_forOf. intros c.
    apply Keeps_bind; [auto with keeps|intros m]. apply Keeps_assign; auto. }
  intros _. apply Keeps_bind; [|auto with keeps].
  apply Keeps_forOf. intros g.
  apply Keeps_bind; [auto with keeps|intros m].
  apply Keeps_bind; [apply Keeps_assign; auto|intros _].
  auto with keeps.
Qed.

End Keeping.

(** Assignments to the record of [name] keep what is known of that record
    when they keep it field by field, and keep the other records. *)
Lemma stateIs_update (name : string) (P : ChannelState -> Prop)
    (f : ChannelState -> ChannelState) (db : StatusDb) :
  (forall st, P st -> P (f st)) ->
  stateIs name P db -> stateIs name P (JS.update name f db).
Proof.
  intros Hf (st & Hget & HP). exists (f st).
  rewrite get_update_same, Hget. auto.
Qed.

Lemma other_update (name n : string) (f : ChannelState -> ChannelState)
    (db : StatusDb) (x : option ChannelState) :
  n <> name -> JS.get n db = x -> JS.get n (JS.update name f db) = x.
Proof.
  intros Hn Hget. rewrite get_update.
  destruct (String.eqb_spec name n); congruence.
Qed.

End Running.

(** ** The reconciler *)

Section Reconciler.

Variable E : Externals.

(** [online], one step at a time. *)
Lemma exec_online (bot name : string) (cfg : ConfigChannelEntry)
    (s : HelixStream.t) (w : World) :
  let title := HelixStream.title s in
  let w0 := print log ("Online: " ++ title) w in
  exec E (online E bot name cfg s) w
  = match JS.get name (data w) with
    | None => (Thrown (TypeError "Cannot read properties of undefined"), w0)
    | Some st =>
        if strict_eq (lastStreamTitle st) title
        then (Ok tt, print log "Already notified! Skip..." w0)
        else
          let w1 := drawn (with_data
                      (JS.update name (set_lastStreamTitle (Some title))) w0) in
          let message :=
            notification E title (HelixStream.userName s) (randomHex E (draws w) 5) in
          if strict_eq (lastStreamId st) (HelixStream.id s)
          then exec E (titleChanged bot name message) w1
          else
            exec E (cleanupRemoved name cfg ;; notify bot name message cfg)
              (print log "New stream detected! Notify!"
                 (with_data
                    (JS.update name (set_lastStreamId (Some (HelixStream.id s))))
                    w1))
    end.
Proof.
  intros title w0. unfold online. fold title.
  rewrite exec_bind, exec_sync. cbn [step_sync fst snd].
  fold w0. rewrite exec_bind, exec_theState.
  change (data w0) with (data w).
  destruct (JS.get name (data w)) as [st|] eqn:Hst; [|reflexivity].
  destruct (strict_eq (lastStreamTitle st) title) eqn:Htitle.
  - now rewrite exec_sync.
  - rewrite exec_bind, exec_sync. cbn [step_sync fst snd].
    rewrite exec_bind, exec_sync. cbn [step_sync fst snd].
    rewrite exec_bind, exec_theState. cbn [data drawn with_data].
    change (data w0) with (data w).
    rewrite get_update_same, Hst. cbn [option_map set_lastStreamTitle lastStreamId].
    change (draws (with_data _ w0)) with (draws w).
    destruct (strict_eq (lastStreamId st) (HelixStream.id s)); [reflexivity|].
    rewrite exec_bind, exec_sync. cbn [step_sync fst snd].
    rewrite exec_bind, exec_sync. cbn [step_sync fst snd].
    rewrite exec_bind. reflexivity.
Qed.

(** *** Duplicate suppression *)

Lemma strict_eq_true (a : option string) (b : string) :
  strict_eq a b = true <-> a = Some b.
Proof.
  destruct a as [x|]; simpl.
  - rewrite String.eqb_eq. split; congruence.
  - split; discriminate.
Qed.

Lemma suppressed (bot name : string) (cfg : ConfigChannelEntry)
    (s : HelixStream.t) (w : World) (st : ChannelState) :
  JS.get name (data w) = Some st ->
  lastStreamTitle st = Some (HelixStream.title s) ->
  exec E (reconcile E bot name cfg (Some s)) w
  = (Ok tt, print log "Already notified! Skip..."
              (print log ("Online: " ++ HelixStream.title s) w)).
Proof.
  intros Hst Htitle. simpl reconcile. rewrite exec_online, Hst.
  apply strict_eq_true in Htitle. now rewrite Htitle.
Qed.

(** A cycle that gets past the title check leaves both the stream id and
    the title of the observation in the state, however the cycle ends. *)
Lemma online_records (bot name : string) (cfg : ConfigChannelEntry)
    (s : HelixStream.t) (w : World) (st : ChannelState) :
  JS.get name (data w) = Some st ->
  strict_eq (lastStreamTitle st) (HelixStream.title s) = false ->
  stateIs name
    (fun st' => lastStreamId st' = Some (HelixStream.id s)
                /\ lastStreamTitle st' = Some (HelixStream.title s))
    (data (snd (exec E (online E bot name cfg s) w))).
Proof.
  intros Hst Htitle. rewrite exec_online, Hst, Htitle. cbv zeta.
  destruct (strict_eq (lastStreamId st) (HelixStream.id s)) eqn:Hid.
  - apply (Keeps_exec _ _ anyCall); [now apply Keeps_titleChanged|].
    exists (set_lastStreamTitle (Some (HelixStream.title s)) st).
    cbn [data drawn with_data print]. rewrite get_update_same, Hst.
    apply strict_eq_true in Hid. simpl. auto.
  - apply (Keeps_exec _ _ anyCall).
    + apply Keeps_bind; [|intros _].
      * apply Keeps_cleanupRemoved. intros f db. apply stateIs_update.
        intros x; simpl; auto.
      * apply Keeps_notify; try reflexivity;
          intros f db; apply stateIs_update; intros x; simpl; auto.
    + exists (set_lastStreamId (Some (HelixStream.id s))
                (set_lastStreamTitle (Some (HelixStream.title s)) st)).
      cbn [data drawn with_data print].
      rewrite !get_update_same, Hst. simpl. auto.
Qed.

(** C2.  Reconciling the same live observation twice in a row: the second
    cycle calls nothing (no send, edit, pin, unpin, and no write) and leaves
    the state in memory and on disk as the first cycle left it; when the
    entity has a state record the second cycle ends normally, having only
    logged that the stream was already notified.  The rule behind it: an
    observed title equal to [lastStreamTitle] ends the cycle at once,
    whatever the stream id. *)
Theorem duplicate_suppression (bot name : string) (cfg : ConfigChannelEntry)
    (s : HelixStream.t) (w : World) :
  let w1 := snd (exec E (reconcile E bot name cfg (Some s)) w) in
  let second := exec E (reconcile E bot name cfg (Some s)) w1 in
  (history (snd second) = history w1
   /\ data (snd second) = data w1
   /\ disk (snd second) = disk w1)
  /\ (JS.get name (data w) <> None ->
      second = (Ok tt, print log "Already notified! Skip..."
                         (print log ("Online: " ++ HelixStream.title s) w1)))
  /\ (forall (s' : HelixStream.t) (w' : World) (st : ChannelState),
        JS.get name (data w') = Some st ->
        lastStreamTitle st = Some (HelixStream.title s') ->
        exec E (reconcile E bot name cfg (Some s')) w'
        = (Ok tt, print log "Already notified! Skip..."
                    (print log ("Online: " ++ HelixStream.title s') w'))).
Proof.
  intros w1 second.
  assert (Hcases :
    (JS.get name (data w) = None /\ JS.get name (data w1) = None)
    \/ (JS.get name (data w) <> None
        /\ stateIs name
             (fun st' => lastStreamTitle st' = Some (HelixStream.title s))
             (data w1))).
  { subst w1. simpl reconcile.
    destruct (JS.get name (data w)) as [st|] eqn:Hst.
    - right. split; [discriminate|].
      destruct (strict_eq (lastStreamTitle st) (HelixStream.title s)) eqn:Ht.
      + rewrite exec_online, Hst, Ht. exists st. split; auto.
        now apply strict_eq_true.
      + destruct (online_records bot name cfg s w st Hst Ht) as (st' & Hg & _ & Ht').
        exists st'. auto.
    - left. split; auto. now rewrite exec_online, Hst. }
  split; [|split].
  - destruct Hcases as [[_ Hnone]|[_ (st' & Hget & Ht')]]; subst second.
    + simpl reconcile. rewrite exec_online, Hnone. auto.
    + rewrite (suppressed bot name cfg s w1 st' Hget Ht'). auto.
  - intros Hsome. destruct Hcases as [[Hnone _]|[_ (st' & Hget & Ht')]];
      [contradiction|].
    subst second. apply (suppressed bot name cfg s w1 st' Hget Ht').
  - intros s' w' st. apply suppressed.
Qed.

(** *** What a cycle does to [lastStreamId] *)

(** C7, as the code has it.  The offline branch never assigns
    [lastStreamId]: a cycle that observes the entity offline leaves it as it
    was, so after "live, then offline" it still names the ended stream.  A
    cycle that observes the entity live leaves it unchanged when the title is
    a duplicate, and equal to the observed stream id otherwise; this holds
    however the cycle ends. *)
Theorem lastStreamId_after_cycle (bot name : string) (cfg : ConfigChannelEntry)
    (stream : option HelixStream.t) (w : World) (st : ChannelState) :
  JS.get name (data w) = Some st ->
  stateIs name
    (fun st' =>
       lastStreamId st'
       = match stream with
         | None => lastStreamId st
         | Some s =>
             if strict_eq (lastStreamTitle st) (HelixStream.title s)
             then lastStreamId st
             else Some (HelixStream.id s)
         end)
    (data (snd (exec E (reconcile E bot name cfg stream) w))).
Proof.
  intros Hst. destruct stream as [s|]; simpl reconcile.
  - destruct (strict_eq (lastStreamTitle st) (HelixStream.title s)) eqn:Ht.
    + rewrite exec_online, Hst, Ht. exists st. auto.
    + destruct (online_records bot name cfg s w st Hst Ht) as (st' & Hg & Hid & _).
      exists st'. auto.
  - apply (Keeps_exec _ _ anyCall).
    + apply Keeps_offline; try reflexivity.
      intros f db. apply stateIs_update. intros x; simpl; auto.
    + exists st. auto.
Qed.


(** *** The offline branch *)

Lemma exec_unpinOne (bot name g : string) (m : Z) (w : World) :
  writesSucceed E -> m <> 0 ->
  exists (w' : World) (r : Settled unit),
    exec E (unpinOne bot name (g, Some m)) w = (Ok tt, w')
    /\ history w' = history w ++ unpinned bot ((g, m), r)
    /\ data w' = JS.update name (on_groups (JS.set g None)) (data w)
    /\ disk w' = data w'.
Proof.
  intros Hw Hm.
  assert (Hf : JS.falsy (Some m) = false) by (simpl; now apply Z.eqb_neq).
  unfold unpinOne, ifMissing. rewrite Hf.
  rewrite exec_bind, exec_sync. cbn [step_sync fst snd].
  rewrite exec_bind. cbn [exec]. cbn [history print].
  destruct (respond E unit (history w) (unpinChatMessage bot (ChatStr g) m))
    as [r dt].
  set (w1 := settled _ r dt _).
  assert (Hrest : forall w2 : World,
    history w2 = history w1 -> data w2 = data w ->
    exists w' : World,
      exec E (sync (assign name (on_groups (JS.set g None))) ;;
              await statusDb_write) w2 = (Ok tt, w')
      /\ history w' = history w ++ unpinned bot ((g, m), r)
      /\ data w' = JS.update name (on_groups (JS.set g None)) (data w)
      /\ disk w' = data w').
  { intros w2 Hh Hd. rewrite exec_bind, exec_sync. cbn [step_sync fst snd].
    rewrite exec_await. cbn [history with_data]. rewrite (Hw (history w2)).
    eexists. split; [reflexivity|].
    cbn [history data disk settled with_data is_write is_fulfilled andb].
    rewrite Hh, Hd. subst w1. cbn [history settled print unpinned fst snd].
    rewrite <- app_assoc. auto. }
  destruct r as [[]|e].
  - cbn [exec]. destruct (Hrest w1 eq_refl eq_refl) as (w' & H1 & H2).
    exists w', (Fulfilled tt). auto.
  - rewrite exec_sync. cbn [step_sync fst snd].
    destruct (Hrest (print warn ("Unable to unpin message " ++ messageOf e) w1)
                eq_refl eq_refl) as (w' & H1 & H2).
    exists w', (Rejected e). auto.
Qed.

Lemma exec_unpin_loop (bot name : string) (Hw : writesSucceed E)
    (l : list (string * option Z)) :
  (forall k, ~ In (k, Some 0) l) ->
  forall (w : World) (st : ChannelState),
    JS.get name (data w) = Some st ->
    exists (w' : World) (st' : ChannelState) (results : list (Settled unit)),
      exec E (forOf l (unpinOne bot name)) w = (Ok tt, w')
      /\ List.length results = List.length (withId l)
      /\ history w' = history w ++ flat_map (unpinned bot) (combine (withId l) results)
      /\ JS.get name (data w') = Some st'
      /\ lastStreamId st' = lastStreamId st
      /\ lastStreamTitle st' = lastStreamTitle st
      /\ channels st' = channels st
      /\ groups st' = clearAll (withId l) (groups st)
      /\ (forall n, n <> name -> JS.get n (data w') = JS.get n (data w))
      /\ disk w' = match withId l with [] => disk w | _ => data w' end
      /\ (withId l = [] -> data w' = data w).
Proof.
  induction l as [|[g id] l IH]; intros Hvalid w st Hst.
  - exists w, st, []. simpl. rewrite app_nil_r. repeat split; auto.
  - assert (Hvalid' : forall k, ~ In (k, Some 0) l).
    { intros k Hin. apply (Hvalid k). now right. }
    cbn [forOf]. rewrite exec_bind.
    destruct id as [m|].
    + assert (Hm : m <> 0).
      { intros ->. apply (Hvalid g). now left. }
      destruct (exec_unpinOne bot name g m w Hw Hm) as (w1 & r & Hex & Hh & Hd & Hdisk).
      rewrite Hex.
      assert (Hst1 : JS.get name (data w1) = Some (on_groups (JS.set g None) st)).
      { rewrite Hd, get_update_same, Hst. reflexivity. }
      destruct (IH Hvalid' w1 _ Hst1)
        as (w' & st' & rs & Hex' & Hlen & Hh' & Hg' & Hi & Ht & Hc & Hgr & Hother & Hdisk' & Hnil).
      exists w', st', (r :: rs). split; [exact Hex'|].
      cbn [withId flat_map snd fst app List.length combine].
      fold (withId l).
      repeat split; auto.
      * rewrite Hh', Hh. now rewrite <- app_assoc.
      * intros n Hn. rewrite Hother, Hd, get_update by auto.
        destruct (String.eqb_spec name n); congruence.
      * rewrite Hdisk'. destruct (withId l); auto.
        rewrite Hnil by reflexivity. auto.
      * discriminate.
    + cbn [unpinOne ifMissing exec].
      destruct (IH Hvalid' w st Hst)
        as (w' & st' & rs & Hex' & Hlen & Hh' & Hg' & Hi & Ht & Hc & Hgr & Hother & Hdisk' & Hnil).
      exists w', st', rs. cbn [withId flat_map snd app]. fold (withId l).
      repeat split; auto.
Qed.


Lemma get_clearAll (g : string) (ids : list (string * Z)) (o : JS.Obj (option Z)) :
  JS.get g (clearAll ids o)
  = if existsb (fun gm => String.eqb (fst gm) g) ids then Some None else JS.get g o.
Proof.
  unfold clearAll. revert o. induction ids as [|[g' m] ids IH]; intros o; simpl.
  - reflexivity.
  - rewrite IH. destruct (String.eqb_spec g' g) as [->|Hne]; simpl.
    + rewrite get_set_same. now destruct (existsb _ ids).
    + rewrite get_set_other by congruence. reflexivity.
Qed.

Lemma In_withId (g : string) (m : Z) (l : list (string * option Z)) :
  In (g, m) (withId l) <-> In (g, Some m) l.
Proof.
  unfold withId. rewrite in_flat_map. split.
  - intros [[k [v|]] [Hin Hx]]; simpl in Hx; [|tauto].
    destruct Hx as [[= -> ->]|[]]. exact Hin.
  - intros Hin. exists (g, Some m). split; simpl; auto.
Qed.

Lemma recorded_spec (g : string) (o : JS.Obj (option Z)) :
  existsb (fun gm => String.eqb (fst gm) g) (recorded o) = true
  <-> exists m, In (g, Some m) o.
Proof.
  rewrite existsb_exists. split.
  - intros [[g' m] [Hin Heq]]. simpl in Heq. apply String.eqb_eq in Heq. subst g'.
    exists m. apply (proj1 (In_withId _ _ _)) in Hin.
    exact (proj1 (In_entries _ _) Hin).
  - intros [m Hin]. exists (g, m). split.
    + apply (proj2 (In_withId _ _ _)). exact (proj2 (In_entries _ _) Hin).
    + apply String.eqb_refl.
Qed.

Lemma get_cleared (g : string) (o : JS.Obj (option Z)) :
  JS.get g (clearAll (recorded o) o)
  = match JS.get g o with
    | Some _ => Some None
    | None => None
    end.
Proof.
  rewrite get_clearAll.
  destruct (existsb _ (recorded o)) eqn:Hex.
  - apply recorded_spec in Hex. destruct Hex as [m Hin].
    apply In_get in Hin. destruct Hin as [v ->]. reflexivity.
  - destruct (JS.get g o) as [[m|]|] eqn:Hg; auto.
    apply get_In in Hg.
    assert (Htrue : existsb (fun gm => String.eqb (fst gm) g) (recorded o) = true)
      by (apply recorded_spec; eauto).
    congruence.
Qed.

(** C4.  Observing the entity offline.  Whatever the services answer, the
    cycle only calls unpins and writes (nothing is sent, edited, pinned or
    deleted) and leaves [channels], [lastStreamId], [lastStreamTitle] and
    the records of the other entities as they were.  With message ids in the
    state that Telegram can have issued and a state file that can be
    written, it calls, for every group whose recorded message id is not
    [null] and in the order of [Object.entries], one unpin (whose failure is
    ignored) followed by one write, and nothing else; afterwards every entry
    of [groups] is [null] (those that were [null] still are, no entry is
    added or removed), and the file holds the state in memory as soon as one
    group was processed. *)
Theorem offline_unwind (bot name : string) (cfg : ConfigChannelEntry)
    (w : World) (st : ChannelState) :
  JS.get name (data w) = Some st ->
  let r := exec E (reconcile E bot name cfg None) w in
  (exists (st' : ChannelState) (evs : list Event),
     JS.get name (data (snd r)) = Some st'
     /\ channels st' = channels st
     /\ lastStreamId st' = lastStreamId st
     /\ lastStreamTitle st' = lastStreamTitle st
     /\ (forall n, n <> name -> JS.get n (data (snd r)) = JS.get n (data w))
     /\ history (snd r) = history w ++ evs
     /\ Forall (fun e => unpinOrWrite (kindOfEvent e) = true) evs)
  /\ (validIds (groups st) ->
      writesSucceed E ->
      exists (w' : World) (st' : ChannelState) (results : list (Settled unit)),
        r = (Ok tt, w')
        /\ List.length results = List.length (recorded (groups st))
        /\ history w'
           = history w
             ++ flat_map (unpinned bot) (combine (recorded (groups st)) results)
        /\ JS.get name (data w') = Some st'
        /\ (forall g, JS.get g (groups st')
                      = match JS.get g (groups st) with
                        | Some _ => Some None
                        | None => None
                        end)
        /\ disk w' = match recorded (groups st) with
                     | [] => disk w
                     | _ => data w'
                     end).
Proof.
  intros Hst r. subst r. cbn [reconcile]. split.
  - assert (Hkept : stateIs name
                      (fun st' => channels st' = channels st
                                  /\ lastStreamId st' = lastStreamId st
                                  /\ lastStreamTitle st' = lastStreamTitle st)
                      (data (snd (exec E (offline bot name) w)))).
    { apply (Keeps_exec _ _ unpinOrWrite).
      - apply Keeps_offline; try reflexivity.
        intros f db. apply stateIs_update. intros x; simpl; auto.
      - exists st. auto. }
    destruct Hkept as (st' & Hget & Hc & Hi & Ht).
    destruct (Keeps_history E (fun _ => True) unpinOrWrite (offline bot name))
      with (w := w) as (evs & Hh & Hall).
    { apply Keeps_offline; auto. }
    exists st', evs. repeat split; auto.
    intros n Hn.
    apply (Keeps_exec E (fun db => JS.get n db = JS.get n (data w)) unpinOrWrite);
      [|reflexivity].
    apply Keeps_offline; try reflexivity.
    intros f db. now apply other_update.
  - intros Hvalid Hw. unfold offline.
    rewrite exec_bind, exec_sync. cbn [step_sync fst snd].
    rewrite exec_bind, exec_theState. cbn [data print]. rewrite Hst.
    assert (Hv : forall k, ~ In (k, Some 0) (JS.entries (groups st))).
    { intros k Hin. apply (Hvalid k). exact (proj1 (In_entries _ _) Hin). }
    destruct (exec_unpin_loop bot name Hw (JS.entries (groups st)) Hv
                (print log "Not online!" w) st Hst)
      as (w' & st' & rs & Hex & Hlen & Hh & Hg & Hi & Ht & Hc & Hgr & Hother & Hdisk & _).
    exists w', st', rs. fold (recorded (groups st)) in *.
    repeat split; auto.
    intros g. rewrite Hgr. apply get_cleared.
Qed.

(** *** Same stream, new title *)

Lemma exec_editAll (bot message complaint : string) (He : editsSucceed E)
    (l : list (string * option Z)) :
  (forall k, ~ In (k, Some 0) l) ->
  forall (changes : bool) (w : World),
    exists w' : World,
      exec E (editAll bot message complaint l changes) w
      = (Ok (changes || nonEmpty (withId l)), w')
      /\ history w' = history w ++ map (edited bot message) (withId l)
      /\ data w' = data w
      /\ disk w' = disk w
      /\ output w'
         = output w ++ map (fun _ => (error, complaint)) (withoutId l).
Proof.
  unfold editAll.
  induction l as [|[chat id] l IH]; intros Hvalid changes w.
  - exists w. simpl. rewrite orb_false_r, !app_nil_r. auto.
  - assert (Hvalid' : forall k, ~ In (k, Some 0) l).
    { intros k Hin. apply (Hvalid k). now right. }
    cbn [forOfWith]. rewrite exec_bind.
    destruct id as [m|].
    + assert (Hf : JS.falsy (Some m) = false).
      { simpl. apply Z.eqb_neq. intros ->. apply (Hvalid chat). now left. }
      unfold ifMissing at 1. rewrite Hf.
      rewrite exec_bind, exec_await, (He (history w)). cbn [exec].
      destruct (IH Hvalid' true (settled
                  (editMessageText bot (ChatStr chat) m message) (Fulfilled tt)
                  (snd (respond E unit (history w)
                          (editMessageText bot (ChatStr chat) m message))) w))
        as (w' & Hex & Hh & Hd & Hdisk & Hout).
      exists w'. rewrite Hex. cbn [withId flat_map snd fst app nonEmpty map withoutId filter].
      fold (withId l). fold (withoutId l).
      rewrite orb_true_r. split; [reflexivity|].
      rewrite Hh, Hd, Hdisk, Hout. cbn [history data disk output settled is_write andb].
      rewrite <- app_assoc. auto.
    + unfold ifMissing at 1.
      rewrite exec_bind, exec_sync. cbn [step_sync fst snd exec].
      destruct (IH Hvalid' changes (print error complaint w))
        as (w' & Hex & Hh & Hd & Hdisk & Hout).
      exists w'. rewrite Hex. cbn [withId flat_map snd fst app nonEmpty map withoutId filter].
      fold (withId l). fold (withoutId l).
      split; [reflexivity|].
      rewrite Hh, Hd, Hdisk, Hout. cbn [history data disk output print].
      rewrite <- app_assoc. auto.
Qed.


Lemma nonEmpty_app {A : Type} (a b : list A) :
  nonEmpty (a ++ b) = nonEmpty a || nonEmpty b.
Proof. destruct a; reflexivity. Qed.

Lemma exec_titleChanged (bot name message : string) (w : World) (st : ChannelState) :
  JS.get name (data w) = Some st ->
  validIds (channels st) -> validIds (groups st) ->
  editsSucceed E -> writesSucceed E ->
  let targets := recorded (channels st) ++ recorded (groups st) in
  exists w' : World,
    exec E (titleChanged bot name message) w = (Ok tt, w')
    /\ history w'
       = history w ++ map (edited bot message) targets
         ++ (if nonEmpty targets then [Ev statusDb_write (Fulfilled tt)] else [])
    /\ data w' = data w
    /\ disk w' = (if nonEmpty targets then data w else disk w)
    /\ output w'
       = output w ++ [(log, "Updating alert title!")]
         ++ map (fun _ => (error, "Missing last message id in status! Skip..."))
              (missing (channels st))
         ++ map (fun _ => (error, "Missing last group message id in status! Skip..."))
              (missing (groups st)).
Proof.
  intros Hst Hvc Hvg He Hw targets. unfold titleChanged.
  rewrite exec_bind, exec_sync. cbn [step_sync fst snd].
  rewrite exec_bind, exec_theState. cbn [data print]. rewrite Hst.
  assert (Hc : forall k, ~ In (k, Some 0) (JS.entries (channels st))).
  { intros k Hin. apply (Hvc k). exact (proj1 (In_entries _ _) Hin). }
  assert (Hg : forall k, ~ In (k, Some 0) (JS.entries (groups st))).
  { intros k Hin. apply (Hvg k). exact (proj1 (In_entries _ _) Hin). }
  rewrite exec_bind.
  destruct (exec_editAll bot message "Missing last message id in status! Skip..."
              He _ Hc false (print log "Updating alert title!" w))
    as (w1 & Hex1 & Hh1 & Hd1 & Hdisk1 & Hout1).
  rewrite Hex1. rewrite exec_bind, exec_theState, Hd1. cbn [data print].
  rewrite Hst. rewrite exec_bind.
  destruct (exec_editAll bot message "Missing last group message id in status! Skip..."
              He _ Hg (false || nonEmpty (withId (JS.entries (channels st)))) w1)
    as (w2 & Hex2 & Hh2 & Hd2 & Hdisk2 & Hout2).
  rewrite Hex2. fold (recorded (channels st)) in *. fold (recorded (groups st)) in *.
  fold (missing (channels st)) in *. fold (missing (groups st)) in *.
  cbn [orb] in *.
  replace (nonEmpty (recorded (channels st)) || nonEmpty (recorded (groups st)))
    with (nonEmpty targets) by (unfold targets; now rewrite nonEmpty_app).
  rewrite Hh1 in Hh2. rewrite Hd1 in Hd2. rewrite Hdisk1 in Hdisk2.
  rewrite Hout1 in Hout2. cbn [history data disk output print] in *.
  destruct (nonEmpty targets).
  - rewrite exec_await, (Hw (history w2)). eexists. split; [reflexivity|].
    cbn [history data disk output settled is_write is_fulfilled andb].
    rewrite Hh2, Hd2, Hout2. unfold targets.
    rewrite map_app, <- !app_assoc. auto.
  - exists w2. split; [reflexivity|].
    rewrite Hh2, Hd2, Hdisk2, Hout2. unfold targets.
    rewrite map_app, <- !app_assoc, app_nil_r. auto.
Qed.

(** X20.  Observing the entity live with the stream id of the state and a
    title other than [lastStreamTitle].  Whatever the services answer, the
    cycle only calls edits and writes (no send, no pin), and in the state
    only [lastStreamTitle] changes, to the observed title.  With message ids
    in the state that Telegram can have issued and services that accept
    edits and writes, it edits the message recorded for every chat of
    [channels] and then of [groups] (each in the order of [Object.entries])
    with the new text, writes the state once if anything was edited, and
    calls nothing else; every entry that holds [null] is skipped and
    reported on the console. *)
Theorem title_change_edits (bot name : string) (cfg : ConfigChannelEntry)
    (s : HelixStream.t) (w : World) (st : ChannelState) :
  JS.get name (data w) = Some st ->
  lastStreamId st = Some (HelixStream.id s) ->
  lastStreamTitle st <> Some (HelixStream.title s) ->
  let title := HelixStream.title s in
  let message :=
    notification E title (HelixStream.userName s) (randomHex E (draws w) 5) in
  let r := exec E (reconcile E bot name cfg (Some s)) w in
  (exists (st' : ChannelState) (evs : list Event),
     JS.get name (data (snd r)) = Some st'
     /\ lastStreamTitle st' = Some title
     /\ lastStreamId st' = lastStreamId st
     /\ channels st' = channels st
     /\ groups st' = groups st
     /\ (forall n, n <> name -> JS.get n (data (snd r)) = JS.get n (data w))
     /\ history (snd r) = history w ++ evs
     /\ Forall (fun e => editOrWrite (kindOfEvent e) = true) evs)
  /\ (validIds (channels st) -> validIds (groups st) ->
      editsSucceed E -> writesSucceed E ->
      exists (w' : World) (edits : list (string * Z)),
        r = (Ok tt, w')
        /\ history w'
           = history w ++ map (edited bot message) edits
             ++ (if nonEmpty edits then [Ev statusDb_write (Fulfilled tt)] else [])
        /\ edits = recorded (channels st) ++ recorded (groups st)
        /\ (forall k m, JS.get k (channels st) = Some (Some m)
                        \/ JS.get k (groups st) = Some (Some m) ->
                        In (k, m) edits)
        /\ (forall k m, In (k, m) edits ->
                        In (k, Some m) (channels st) \/ In (k, Some m) (groups st))
        /\ disk w' = (if nonEmpty edits then data w' else disk w)
        /\ output w'
           = output w
             ++ [(log, ("Online: " ++ title)%string); (log, "Updating alert title!")]
             ++ map (fun _ => (error, "Missing last message id in status! Skip..."))
                  (missing (channels st))
             ++ map (fun _ => (error, "Missing last group message id in status! Skip..."))
                  (missing (groups st))).
Proof.
  intros Hst Hid Htitle title message r. subst r.
  cbn [reconcile]. rewrite exec_online, Hst. cbv zeta.
  destruct (strict_eq (lastStreamTitle st) (HelixStream.title s)) eqn:Ht.
  { apply strict_eq_true in Ht. contradiction. }
  apply strict_eq_true in Hid. rewrite Hid.
  set (w1 := drawn _).
  assert (Hd1 : data w1 = JS.update name (set_lastStreamTitle (Some title)) (data w))
    by reflexivity.
  assert (Hh1 : history w1 = history w) by reflexivity.
  assert (Hst1 : JS.get name (data w1)
                 = Some (set_lastStreamTitle (Some title) st)).
  { rewrite Hd1. now rewrite get_update_same, Hst. }
  split.
  - assert (Hdata : data (snd (exec E (titleChanged bot name message) w1)) = data w1).
    { apply (Keeps_exec E (fun db => db = data w1) editOrWrite); [|reflexivity].
      now apply Keeps_titleChanged. }
    destruct (Keeps_history E (fun _ => True) editOrWrite
                (titleChanged bot name message)
                ltac:(now apply Keeps_titleChanged) w1) as (evs & Hh & Hall).
    exists (set_lastStreamTitle (Some title) st), evs.
    subst message title. rewrite Hdata. split; [exact Hst1|]. cbn [set_lastStreamTitle lastStreamTitle
      lastStreamId channels groups].
    split; [reflexivity|]. split; [reflexivity|]. split; [reflexivity|].
    split; [reflexivity|]. split; [|split; [|exact Hall]].
    + intros n Hn. rewrite Hd1. now apply other_update.
    + now rewrite Hh, Hh1.
  - intros Hvc Hvg He Hw.
    destruct (exec_titleChanged bot name message w1 _ Hst1 Hvc Hvg He Hw)
      as (w' & Hex & Hh & Hd & Hdisk & Hout).
    cbn [channels groups set_lastStreamTitle] in *.
    exists w', (recorded (channels st) ++ recorded (groups st)).
    split; [exact Hex|].
    rewrite Hh, Hdisk, Hout, Hd. subst w1.
    cbn [history data disk output drawn with_data print].
    rewrite <- !app_assoc. repeat split; auto.
    + intros k m [Hk|Hk]; apply in_or_app; [left|right];
        apply In_withId, In_entries; now apply get_In.
    + intros k m Hin. apply in_app_or in Hin.
      destruct Hin as [Hin|Hin]; [left|right];
        apply In_withId in Hin; exact (proj1 (In_entries _ _) Hin).
Qed.

(** *** A new stream: cleanup *)

Lemma exec_assign_loop {K : Type} (name : string) (skip : K -> bool)
    (F : K -> ChannelState -> ChannelState) (l : list K) (w : World) :
  exec E (forOf l (fun k => if skip k then Ret tt else sync (assign name (F k)))) w
  = (Ok tt,
     with_data
       (fun db => fold_left
                    (fun db' k => if skip k then db' else JS.update name (F k) db')
                    l db) w).
Proof.
  revert w. induction l as [|k l IH]; intros w; cbn [forOf fold_left].
  - now destruct w.
  - rewrite exec_bind. destruct (skip k).
    + cbn [exec]. apply IH.
    + rewrite exec_sync. cbn [step_sync fst snd]. rewrite IH. reflexivity.
Qed.

Lemma get_assign_fold {K : Type} (name n : string) (skip : K -> bool)
    (F : K -> ChannelState -> ChannelState) (l : list K) (db : StatusDb) :
  JS.get n (fold_left
              (fun db' k => if skip k then db' else JS.update name (F k) db') l db)
  = if String.eqb name n
    then option_map
           (fun st => fold_left (fun st' k => if skip k then st' else F k st') l st)
           (JS.get n db)
    else JS.get n db.
Proof.
  revert db. induction l as [|k l IH]; intros db; cbn [fold_left].
  - destruct (String.eqb name n); [now destruct (JS.get n db)|reflexivity].
  - rewrite IH. destruct (skip k); [reflexivity|].
    rewrite get_update. destruct (String.eqb name n); [|reflexivity].
    now destruct (JS.get n db).
Qed.

Lemma fold_delete_state (skip : string -> bool) (l : list string) (st : ChannelState) :
  let st' := fold_left (fun st' k => if skip k then st'
                                     else on_channels (JS.delete k) st') l st in
  lastStreamId st' = lastStreamId st
  /\ lastStreamTitle st' = lastStreamTitle st
  /\ groups st' = groups st
  /\ channels st'
     = fold_left (fun c k => if skip k then c else JS.delete k c) l (channels st).
Proof.
  revert st. induction l as [|k l IH]; intros st; cbn [fold_left].
  - auto.
  - destruct (skip k); [apply IH|].
    destruct (IH (on_channels (JS.delete k) st)) as (H1 & H2 & H3 & H4).
    cbv zeta. rewrite H1, H2, H3, H4. auto.
Qed.

Lemma fold_delete_filter {V : Type} (keep : string -> bool) (l : list string)
    (q : string * V -> bool) (o : JS.Obj V) :
  fold_left (fun c k => if keep k then c else JS.delete k c) l (filter q o)
  = filter (fun kv => q kv
                      && (keep (fst kv) || negb (existsb (String.eqb (fst kv)) l))) o.
Proof.
  revert q. induction l as [|k l IH]; intros q; cbn [fold_left existsb].
  - apply filter_ext. intros kv. now rewrite orb_true_r, andb_true_r.
  - destruct (keep k) eqn:Hk.
    + rewrite IH. apply filter_ext. intros kv.
      destruct (String.eqb_spec (fst kv) k) as [->|]; simpl; [|reflexivity].
      now rewrite Hk.
    + rewrite delete_filter, IH. apply filter_ext. intros kv.
      destruct (String.eqb_spec (fst kv) k) as [->|]; simpl.
      * rewrite Hk. simpl. now rewrite andb_false_r.
      * now rewrite andb_true_r.
Qed.

Lemma filter_true {A : Type} (l : list A) : filter (fun _ => true) l = l.
Proof. induction l; simpl; congruence. Qed.

(** The first loop of the cleanup keeps exactly the entries of
    [state.channels] whose key parses to a configured channel id. *)
Lemma cleanup_channels (cfg : ConfigChannelEntry) (o : JS.Obj (option Z)) :
  fold_left (fun c k => if JS.includes (channelIds cfg) (JS.parseInt k) then c
                        else JS.delete k c) (JS.keys o) o
  = configuredOnly cfg o.
Proof.
  rewrite <- (filter_true o) at 2.
  rewrite (fold_delete_filter
             (fun k => JS.includes (channelIds cfg) (JS.parseInt k))).
  unfold configuredOnly. apply filter_ext_in. intros [k v] Hin. simpl.
  assert (Hk : existsb (String.eqb k) (JS.keys o) = true).
  { apply existsb_exists. exists k. split; [|apply String.eqb_refl].
    apply In_keys. eauto. }
  rewrite Hk. now rewrite orb_false_r.
Qed.

(** The second loop deletes from [state.channels], where the first loop has
    left nothing it could delete: it changes nothing. *)
Lemma cleanup_groups_noop (cfg : ConfigChannelEntry) (l : list string)
    (o : JS.Obj (option Z)) :
  fold_left (fun c k => if JS.includes (channelIds cfg) (JS.parseInt k) then c
                        else JS.delete k c) l (configuredOnly cfg o)
  = configuredOnly cfg o.
Proof.
  induction l as [|k l IH]; cbn [fold_left]; [reflexivity|].
  destruct (JS.includes (channelIds cfg) (JS.parseInt k)) eqn:Hk; [exact IH|].
  rewrite delete_absent; [exact IH|].
  intros v Hin. unfold configuredOnly in Hin. apply filter_In in Hin.
  simpl in Hin. destruct Hin as [_ Hin]. congruence.
Qed.

Lemma exec_cleanupRemoved (name : string) (cfg : ConfigChannelEntry)
    (w : World) (st : ChannelState) :
  JS.get name (data w) = Some st ->
  exists (w' : World) (st' : ChannelState),
    exec E (cleanupRemoved name cfg) w = (Ok tt, w')
    /\ history w' = history w /\ disk w' = disk w /\ output w' = output w
    /\ JS.get name (data w') = Some st'
    /\ lastStreamId st' = lastStreamId st
    /\ lastStreamTitle st' = lastStreamTitle st
    /\ groups st' = groups st
    /\ channels st' = configuredOnly cfg (channels st)
    /\ (forall n, n <> name -> JS.get n (data w') = JS.get n (data w)).
Proof.
  intros Hst. unfold cleanupRemoved.
  rewrite exec_bind, exec_theState, Hst.
  rewrite exec_bind, exec_assign_loop.
  set (w1 := with_data _ w).
  pose proof (fold_delete_state
                (fun k => JS.includes (channelIds cfg) (JS.parseInt k))
                (JS.keys (channels st)) st) as H1.
  cbv zeta in H1. set (st1 := fold_left _ (JS.keys (channels st)) st) in H1.
  assert (Hst1 : JS.get name (data w1) = Some st1).
  { subst w1. cbn [data with_data]. rewrite get_assign_fold, String.eqb_refl, Hst.
    reflexivity. }
  rewrite exec_bind, exec_theState, Hst1, exec_assign_loop.
  pose proof (fold_delete_state
                (fun k => JS.includes (channelIds cfg) (JS.parseInt k))
                (JS.keys (groups st1)) st1) as H2.
  cbv zeta in H2. set (st2 := fold_left _ (JS.keys (groups st1)) st1) in H2.
  destruct H1 as (Hi1 & Ht1 & Hg1 & Hc1). destruct H2 as (Hi2 & Ht2 & Hg2 & Hc2).
  rewrite cleanup_channels in Hc1. rewrite Hc1, cleanup_groups_noop in Hc2.
  eexists. exists st2. split; [reflexivity|].
  cbn [history disk output data with_data]. repeat split; try congruence.
  - rewrite get_assign_fold, String.eqb_refl, Hst1. reflexivity.
  - intros n Hn. rewrite get_assign_fold. subst w1. cbn [data with_data].
    rewrite get_assign_fold.
    destruct (String.eqb_spec name n); [congruence|reflexivity].
Qed.


(** *** A new stream: fan-out *)

Lemma exec_send_channels (bot name message : string) (Hs : sendsSucceed E)
    (l : list Z) :
  forall (w : World) (st : ChannelState),
    JS.get name (data w) = Some st ->
    exists (w' : World) (st' : ChannelState) (ids : list Z),
      exec E (forOf l (fun channelId =>
                sendResult <- await (sendMessage bot (ChatNum channelId) message) ;;
                sync (assign name
                        (on_channels
                           (JS.set (JS.toString channelId) (Some sendResult)))))) w
      = (Ok tt, w')
      /\ List.length ids = List.length l
      /\ history w' = history w ++ map (sent bot message) (combine l ids)
      /\ disk w' = disk w /\ output w' = output w
      /\ JS.get name (data w') = Some st'
      /\ lastStreamId st' = lastStreamId st
      /\ lastStreamTitle st' = lastStreamTitle st
      /\ groups st' = groups st
      /\ channels st' = recordAll l ids (channels st)
      /\ (forall n, n <> name -> JS.get n (data w') = JS.get n (data w)).
Proof.
  induction l as [|c l IH]; intros w st Hst.
  - exists w, st, []. simpl. rewrite app_nil_r. repeat split; auto.
  - cbn [forOf]. rewrite exec_bind, exec_bind, exec_await.
    destruct (Hs (history w) bot (ChatNum c) message) as [m Hm]. rewrite Hm.
    rewrite exec_sync. cbn [step_sync fst snd].
    set (w1 := with_data _ _).
    assert (Hst1 : JS.get name (data w1)
                   = Some (on_channels (JS.set (JS.toString c) (Some m)) st)).
    { subst w1. cbn [data with_data settled].
      now rewrite get_update_same, Hst. }
    destruct (IH w1 _ Hst1)
      as (w' & st' & ids & Hex & Hlen & Hh & Hdisk & Hout & Hg & Hi & Ht & Hgr & Hc & Ho).
    exists w', st', (m :: ids). split; [exact Hex|].
    rewrite Hh, Hdisk, Hout. subst w1.
    cbn [history disk output data with_data settled is_write andb
         List.length combine map] in *.
    rewrite <- app_assoc. repeat split; auto.
    intros n Hn. rewrite Ho, get_update by auto.
    destruct (String.eqb_spec name n); congruence.
Qed.

Lemma exec_send_groups (bot name message : string)
    (Hs : sendsSucceed E) (Hp : pinsSucceed E) (l : list Z) :
  forall (w : World) (st : ChannelState),
    JS.get name (data w) = Some st ->
    exists (w' : World) (st' : ChannelState) (ids : list Z),
      exec E (forOf l (fun groupId =>
                sendResult <- await (sendMessage bot (ChatNum groupId) message) ;;
                sync (assign name
                        (on_groups
                           (JS.set (JS.toString groupId) (Some sendResult)))) ;;
                await (pinChatMessage bot (ChatNum groupId) sendResult))) w
      = (Ok tt, w')
      /\ List.length ids = List.length l
      /\ history w' = history w ++ flat_map (sentAndPinned bot message) (combine l ids)
      /\ disk w' = disk w /\ output w' = output w
      /\ JS.get name (data w') = Some st'
      /\ lastStreamId st' = lastStreamId st
      /\ lastStreamTitle st' = lastStreamTitle st
      /\ channels st' = channels st
      /\ groups st' = recordAll l ids (groups st)
      /\ (forall n, n <> name -> JS.get n (data w') = JS.get n (data w)).
Proof.
  induction l as [|g l IH]; intros w st Hst.
  - exists w, st, []. simpl. rewrite app_nil_r. repeat split; auto.
  - cbn [forOf]. rewrite exec_bind, exec_bind, exec_await.
    destruct (Hs (history w) bot (ChatNum g) message) as [m Hm]. rewrite Hm.
    rewrite exec_bind, exec_sync. cbn [step_sync fst snd].
    rewrite exec_await, Hp.
    set (w1 := settled (pinChatMessage _ _ _) _ _ _).
    assert (Hst1 : JS.get name (data w1)
                   = Some (on_groups (JS.set (JS.toString g) (Some m)) st)).
    { subst w1. cbn [data with_data settled].
      now rewrite get_update_same, Hst. }
    destruct (IH w1 _ Hst1)
      as (w' & st' & ids & Hex & Hlen & Hh & Hdisk & Hout & Hg & Hi & Ht & Hc & Hgr & Ho).
    exists w', st', (m :: ids). split; [exact Hex|].
    rewrite Hh, Hdisk, Hout. subst w1.
    cbn [history disk output data with_data settled is_write andb
         List.length combine flat_map sentAndPinned app] in *.
    rewrite <- !app_assoc. repeat split; auto.
    intros n Hn. rewrite Ho, get_update by auto.
    destruct (String.eqb_spec name n); congruence.
Qed.


Lemma exec_notify (bot name message : string) (cfg : ConfigChannelEntry)
    (w : World) (st : ChannelState) :
  JS.get name (data w) = Some st ->
  sendsSucceed E -> pinsSucceed E -> writesSucceed E ->
  exists (w' : World) (st' : ChannelState) (cids gids : list Z),
    exec E (notify bot name message cfg) w = (Ok tt, w')
    /\ List.length cids = List.length (channelIds cfg)
    /\ List.length gids = List.length (groupIds cfg)
    /\ history w'
       = history w
         ++ map (sent bot message) (combine (channelIds cfg) cids)
         ++ flat_map (sentAndPinned bot message) (combine (groupIds cfg) gids)
         ++ [Ev statusDb_write (Fulfilled tt)]
    /\ output w' = output w
    /\ JS.get name (data w') = Some st'
    /\ lastStreamId st' = lastStreamId st
    /\ lastStreamTitle st' = lastStreamTitle st
    /\ channels st' = recordAll (channelIds cfg) cids (channels st)
    /\ groups st' = recordAll (groupIds cfg) gids (groups st)
    /\ (forall n, n <> name -> JS.get n (data w') = JS.get n (data w))
    /\ disk w' = data w'.
Proof.
  intros Hst Hs Hp Hw. unfold notify. rewrite exec_bind.
  destruct (exec_send_channels bot name message Hs (channelIds cfg) w st Hst)
    as (w1 & st1 & cids & Hex1 & Hlen1 & Hh1 & Hdisk1 & Hout1 & Hg1 & Hi1 & Ht1
        & Hgr1 & Hc1 & Ho1).
  rewrite Hex1. rewrite exec_bind.
  destruct (exec_send_groups bot name message Hs Hp (groupIds cfg) w1 st1 Hg1)
    as (w2 & st2 & gids & Hex2 & Hlen2 & Hh2 & Hdisk2 & Hout2 & Hg2 & Hi2 & Ht2
        & Hc2 & Hgr2 & Ho2).
  rewrite Hex2. rewrite exec_await, (Hw (history w2)).
  eexists. exists st2, cids, gids. split; [reflexivity|].
  cbn [history disk output data settled is_write is_fulfilled andb].
  rewrite Hh2, Hh1, Hout2, Hout1, <- !app_assoc.
  repeat split; auto; try congruence.
  intros n Hn. rewrite Ho2, Ho1; auto.
Qed.

(** C1, as the code has it.  Observing the entity live with a stream id
    other than [lastStreamId] (which is also the case when the state holds
    none) and a title other than [lastStreamTitle], with services that
    accept sends, pins and writes: the cycle sends one message to every
    configured channel id, in the order of the configuration, then for
    every configured group id one message followed by the pin of that very
    message, then writes the state, and calls nothing else; afterwards the
    state holds the observed stream id and title, [channels] maps every
    configured channel id to the message id returned for it (on top of the
    entries the cleanup kept) and [groups] every configured group id to
    the id returned for it, and the file holds the state in memory. *)
Theorem new_stream_fan_out (bot name : string) (cfg : ConfigChannelEntry)
    (s : HelixStream.t) (w : World) (st : ChannelState) :
  JS.get name (data w) = Some st ->
  lastStreamId st <> Some (HelixStream.id s) ->
  lastStreamTitle st <> Some (HelixStream.title s) ->
  sendsSucceed E -> pinsSucceed E -> writesSucceed E ->
  let title := HelixStream.title s in
  let message :=
    notification E title (HelixStream.userName s) (randomHex E (draws w) 5) in
  exists (w' : World) (st' : ChannelState) (cids gids : list Z),
    exec E (reconcile E bot name cfg (Some s)) w = (Ok tt, w')
    /\ List.length cids = List.length (channelIds cfg)
    /\ List.length gids = List.length (groupIds cfg)
    /\ history w'
       = history w
         ++ map (sent bot message) (combine (channelIds cfg) cids)
         ++ flat_map (sentAndPinned bot message) (combine (groupIds cfg) gids)
         ++ [Ev statusDb_write (Fulfilled tt)]
    /\ JS.get name (data w') = Some st'
    /\ lastStreamId st' = Some (HelixStream.id s)
    /\ lastStreamTitle st' = Some title
    /\ channels st'
       = recordAll (channelIds cfg) cids (configuredOnly cfg (channels st))
    /\ groups st' = recordAll (groupIds cfg) gids (groups st)
    /\ (NoDup (channelIds cfg) ->
        forall c m, In (c, m) (combine (channelIds cfg) cids) ->
                    JS.get (JS.toString c) (channels st') = Some (Some m))
    /\ (NoDup (groupIds cfg) ->
        forall g m, In (g, m) (combine (groupIds cfg) gids) ->
                    JS.get (JS.toString g) (groups st') = Some (Some m))
    /\ (forall n, n <> name -> JS.get n (data w') = JS.get n (data w))
    /\ disk w' = data w'.
Proof.
  intros Hst Hid Htitle Hs Hp Hw title message.
  cbn [reconcile]. rewrite exec_online, Hst. cbv zeta.
  destruct (strict_eq (lastStreamTitle st) (HelixStream.title s)) eqn:Ht.
  { apply strict_eq_true in Ht. contradiction. }
  destruct (strict_eq (lastStreamId st) (HelixStream.id s)) eqn:Hi.
  { apply strict_eq_true in Hi. contradiction. }
  set (w2 := print log "New stream detected! Notify!" _).
  assert (Hst2 : JS.get name (data w2)
                 = Some (set_lastStreamId (Some (HelixStream.id s))
                           (set_lastStreamTitle (Some title) st))).
  { subst w2. cbn [data drawn with_data print].
    now rewrite !get_update_same, Hst. }
  assert (Hother : forall n, n <> name -> JS.get n (data w2) = JS.get n (data w)).
  { intros n Hn. subst w2. cbn [data drawn with_data print].
    rewrite !get_update. destruct (String.eqb_spec name n); congruence. }
  rewrite exec_bind.
  destruct (exec_cleanupRemoved name cfg w2 _ Hst2)
    as (w3 & st3 & Hex3 & Hh3 & Hdisk3 & Hout3 & Hg3 & Hi3 & Ht3 & Hgr3 & Hc3 & Ho3).
  rewrite Hex3.
  destruct (exec_notify bot name message cfg w3 st3 Hg3 Hs Hp Hw)
    as (w4 & st4 & cids & gids & Hex4 & Hl1 & Hl2 & Hh4 & Hout4 & Hg4 & Hi4 & Ht4
        & Hc4 & Hgr4 & Ho4 & Hdisk4).
  exists w4, st4, cids, gids. split; [exact Hex4|].
  cbn [lastStreamId lastStreamTitle channels groups
       set_lastStreamId set_lastStreamTitle] in *.
  assert (Hchannels : channels st4
                      = recordAll (channelIds cfg) cids
                          (configuredOnly cfg (channels st))) by congruence.
  assert (Hgroups : groups st4 = recordAll (groupIds cfg) gids (groups st))
    by congruence.
  repeat split; auto; try congruence.
  - rewrite Hh4, Hh3. reflexivity.
  - intros Hnd c m Hin. rewrite Hchannels. now apply get_recordAll.
  - intros Hnd g m Hin. rewrite Hgroups. now apply get_recordAll.
  - intros n Hn. rewrite Ho4, Ho3, Hother; auto.
Qed.


End Reconciler.

(** ** Tasks against the timer *)

Section Racing.

Variable E : Externals.

Lemma now_step_sync {X : Type} (op : Mem X) (w : World) :
  now (snd (step_sync E op w)) = now w.
Proof. now destruct op. Qed.

Lemma exec_now_mono {A : Type} (p : Prog A) (w : World) :
  (now w <= now (snd (exec E p w)))%N.
Proof.
  revert w. induction p as [a|e|X op k IH|X c k IH]; intros w; cbn [exec snd];
    try lia.
  - pose proof (now_step_sync op w) as Hn.
    destruct (step_sync E op w) as [x w']. cbn [snd] in Hn.
    specialize (IH x w'). lia.
  - destruct (respond E X (history w) c) as [r dt].
    specialize (IH r (settled c r dt w)). cbn [now settled] in IH. lia.
Qed.

(** Against a deadline that has not passed, the clock ends between where it
    was and the deadline, and on the deadline when the timer wins. *)
Lemma race_now_bound {A : Type} (p : Prog A) (early : bool) (deadline : N) (w : World) :
  (now w <= deadline)%N ->
  (now w <= now (snd (race E early deadline p w)) <= deadline)%N
  /\ (forall rest, fst (race E early deadline p w) = Expired rest ->
                   now (snd (race E early deadline p w)) = deadline).
Proof.
  revert early w. induction p as [a|e|X op k IH|X c k IH]; intros early w Hle;
    cbn [race fst snd].
  - split; [lia|discriminate].
  - split; [lia|discriminate].
  - pose proof (now_step_sync op w) as Hs.
    destruct (step_sync E op w) as [x w1]. cbn [snd] in Hs.
    destruct (IH x early w1 ltac:(lia)) as [Hb He]. split; [lia|exact He].
  - destruct (respond E X (history w) c) as [r dt].
    destruct (if early then now w + dt <=? deadline else now w + dt <? deadline)%N
      eqn:Hgo.
    + assert (Hn : (now (settled c r dt w) <= deadline)%N).
      { cbn [now settled].
        destruct early; [apply N.leb_le in Hgo|apply N.ltb_lt in Hgo]; lia. }
      destruct (IH r false (settled c r dt w) Hn) as [Hb He].
      cbn [now settled] in Hb. split; [lia|exact He].
    + cbn [fst snd now at_time]. split; [lia|reflexivity].
Qed.



Lemma race_detached {A : Type} (p : Prog A) (early : bool) (deadline : N) (w : World) :
  detached (snd (race E early deadline p w)) = detached w.
Proof.
  revert early w. induction p as [a|e|X op k IH|X c k IH]; intros early w;
    cbn [race snd]; auto.
  - assert (Hd : detached (snd (step_sync E op w)) = detached w) by now destruct op.
    destruct (step_sync E op w) as [x w']. cbn [snd] in Hd. now rewrite IH.
  - destruct (respond E X (history w) c) as [r dt].
    destruct (if early then now w + dt <=? deadline else now w + dt <? deadline)%N;
      [now rewrite IH|reflexivity].
Qed.

(** A task that beats the timer has run as without it. *)
Lemma race_finished {A : Type} (p : Prog A) (early : bool) (deadline : N) (w : World)
    (o : Outcome A) (w' : World) :
  race E early deadline p w = (Finished o, w') -> exec E p w = (o, w').
Proof.
  revert early w. induction p as [a|e|X op k IH|X c k IH]; intros early w;
    cbn [race exec].
  - now intros [= <- <-].
  - now intros [= <- <-].
  - destruct (step_sync E op w) as [x w1]. apply IH.
  - destruct (respond E X (history w) c) as [r dt].
    destruct (if early then now w + dt <=? deadline else now w + dt <? deadline)%N;
      [apply IH|discriminate].
Qed.

Lemma exec_sameButClock {A : Type} (p : Prog A) (w1 w2 : World) :
  sameButClock w1 w2 ->
  fst (exec E p w1) = fst (exec E p w2)
  /\ sameButClock (snd (exec E p w1)) (snd (exec E p w2)).
Proof.
  revert w1 w2. induction p as [a|e|X op k IH|X c k IH]; intros w1 w2 Hs;
    cbn [exec fst snd]; auto.
  - assert (Hstep : fst (step_sync E op w1) = fst (step_sync E op w2)
                    /\ sameButClock (snd (step_sync E op w1)) (snd (step_sync E op w2))).
    { destruct Hs as (Hd & Hdisk & Hh & Ho & Hdr & Hdet).
      destruct op; cbn [step_sync fst snd]; unfold sameButClock;
        cbn [data disk history output draws detached with_data print drawn];
        rewrite ?Hd, ?Hdisk, ?Hh, ?Ho, ?Hdr, ?Hdet; auto 10. }
    destruct (step_sync E op w1) as [x1 w1'], (step_sync E op w2) as [x2 w2'].
    cbn [fst snd] in Hstep. destruct Hstep as [-> Hs']. now apply IH.
  - destruct Hs as (Hd & Hdisk & Hh & Ho & Hdr & Hdet). rewrite Hh.
    destruct (respond E X (history w2) c) as [r dt]. apply IH.
    unfold sameButClock. cbn [data disk history output draws detached settled].
    rewrite Hd, Hdisk, Hh, Ho, Hdr, Hdet. auto 10.
Qed.

Lemma race_then_exec {A : Type} (p : Prog A) (early : bool) (deadline : N) (w : World)
    (rest : Prog A) (w' : World) :
  race E early deadline p w = (Expired rest, w') ->
  fst (exec E rest w') = fst (exec E p w)
  /\ sameButClock (snd (exec E rest w')) (snd (exec E p w)).
Proof.
  revert early w. induction p as [a|e|X op k IH|X c k IH]; intros early w Hrace;
    cbn [race exec] in *; try discriminate.
  - destruct (step_sync E op w) as [x w1]. now apply (IH x early).
  - destruct (respond E X (history w) c) as [r dt] eqn:Hr.
    destruct (if early then now w + dt <=? deadline else now w + dt <? deadline)%N.
    + now apply (IH r false).
    + injection Hrace as <- <-.
      pose proof (exec_sameButClock (Await c k) (at_time deadline w) w) as Hs.
      cbn [exec] in Hs. cbn [history at_time] in Hs. rewrite Hr in Hs.
      cbn [exec history at_time]. rewrite Hr. apply Hs.
      unfold sameButClock. cbn [data disk history output draws detached at_time].
      auto 10.
Qed.

(** What a task the timer has given up on does when it goes on, with
    nothing else running: it ends with the state, the file, the calls and
    the console of a run without a time limit. *)
Lemma resumed_as_unlimited {A : Type} (p : Prog A) (early : bool) (deadline : N)
    (w : World) (rest : Prog A) (w' : World) :
  race E early deadline p w = (Expired rest, w') ->
  detached w = [] ->
  let later := resumeDetached E (detach (rest ;; Ret tt) w') in
  let unlimited := snd (exec E p w) in
  data later = data unlimited
  /\ disk later = disk unlimited
  /\ history later = history unlimited
  /\ output later = output unlimited.
Proof.
  intros Hrace Hdet later unlimited. subst later unlimited.
  pose proof (race_detached p early deadline w) as Hd.
  pose proof (race_then_exec p early deadline w rest w' Hrace) as [_ Hsame].
  rewrite Hrace in Hd. cbn [snd] in Hd. rewrite Hdet in Hd.
  unfold resumeDetached. cbn [detached detach data disk history output draws now].
  rewrite Hd. cbn [app fold_left]. rewrite exec_bind.
  set (w0 := {| data := data w'; disk := disk w'; history := history w';
                output := output w'; draws := draws w'; now := now w';
                detached := [] |}).
  assert (Hw0 : sameButClock w0 w').
  { unfold sameButClock. subst w0. cbn. rewrite Hd. auto 10. }
  destruct (exec_sameButClock rest w0 w' Hw0) as [Ho Hs].
  destruct (exec E rest w0) as [[a|e] w1]; cbn [exec fst snd] in *;
    destruct Hs as (H1 & H2 & H3 & H4 & _), Hsame as (G1 & G2 & G3 & G4 & _);
    repeat split; congruence.
Qed.

(** The same from what the caller of [fulfillWithTimeLimit] sees: a
    failure that left a task behind. *)
Lemma abandoned_runs_on {T : Type} (task : Prog T) (limit : N) (w : World)
    (o : Outcome T) (w' : World) :
  fulfillWithTimeLimit E limit task w = (o, w') ->
  List.length (detached w') = S (List.length (detached w)) ->
  detached w = [] ->
  let later := resumeDetached E w' in
  let unlimited := snd (exec E task w) in
  data later = data unlimited
  /\ disk later = disk unlimited
  /\ history later = history unlimited
  /\ output later = output unlimited.
Proof.
  unfold fulfillWithTimeLimit. intros Hrun Hlen Hdet.
  pose proof (race_detached task true (now w + limit)%N w) as Hd.
  destruct (race E true (now w + limit) task w) as [[o'|rest] w1] eqn:Hrace;
    cbn [snd] in Hd; injection Hrun as <- <-.
  - rewrite Hd in Hlen. lia.
  - now apply (resumed_as_unlimited task true (now w + limit)%N w rest w1).
Qed.

End Racing.

(** ** The scheduler *)

Section Scheduler.

Variable E : Externals.
Variable config : Config.t.

(** C8, as the code has it.  When the 15-second budget of an entity's
    cycle runs out while the cycle is still waiting for Twitch, the caller
    gets the failure [Error('Task timeout!')] and the state, in memory and
    on disk, is as it was before the cycle began.  The cycle itself is not
    cancelled: it stays suspended on its pending call, and when it goes on
    it does all that it would have done without a time limit. *)
Theorem timeout_while_resolving (name : string) (cfg : ConfigChannelEntry)
    (w : World) (token : string) :
  JS.get (bot cfg) (Config.bots config) = Some token ->
  expiresWhileResolving E name w ->
  exists w' : World,
    fulfillWithTimeLimit E (15 * 1000) (update E config name cfg) w
    = (Thrown (Error "Task timeout!"), w')
    /\ data w' = data w
    /\ disk w' = disk w
    /\ List.length (detached w') = S (List.length (detached w))
    /\ (detached w = [] ->
        let later := resumeDetached E w' in
        let unlimited := snd (exec E (update E config name cfg) w) in
        data later = data unlimited
        /\ disk later = disk unlimited
        /\ history later = history unlimited
        /\ output later = output unlimited).
Proof.
  intros Hbot Hexp.
  assert (Hout : exists w' : World,
             fulfillWithTimeLimit E (15 * 1000) (update E config name cfg) w
             = (Thrown (Error "Task timeout!"), w')
             /\ data w' = data w
             /\ disk w' = disk w
             /\ List.length (detached w') = S (List.length (detached w))).
  { unfold fulfillWithTimeLimit, update, getBot.
    rewrite Hbot. cbn [bind]. unfold cycle.
    cbn [bind sync await race step_sync]. cbn [history print].
    unfold expiresWhileResolving in Hexp. cbv zeta in Hexp.
    destruct (respond E _ (history w) (getUsersByNames [name])) as [r1 dt1] eqn:H1.
    cbn [fst snd] in Hexp. cbn [now print].
    destruct (now w + dt1 <=? now w + 15 * 1000)%N eqn:Hle.
    - apply N.leb_le in Hle.
      destruct Hexp as [Hexp|(user & others & Hr1 & Hexp)]; [lia|]. subst r1.
      cbn [bind sync await race step_sync]. cbn [history print settled now].
      destruct (respond E _ (history w ++ [Ev (getUsersByNames [name])
                                             (Fulfilled (user :: others))])
                  (getStreamByUserId (HelixUser.id user))) as [r2 dt2] eqn:H2.
      cbn [snd] in Hexp.
      destruct (now w + dt1 + dt2 <? now w + 15 * 1000)%N eqn:Hlt2.
      { apply N.ltb_lt in Hlt2. lia. }
      eexists. split; [reflexivity|].
      cbn [data disk detached detach at_time settled print is_write andb].
      rewrite length_app. simpl. split; [|split]; auto. lia.
    - eexists. split; [reflexivity|].
      cbn [data disk detached detach at_time settled print].
      rewrite length_app. simpl. split; [|split]; auto. lia. }
  destruct Hout as (w' & Hrun & Hdata & Hdisk & Hlen).
  exists w'. split; [exact Hrun|]. split; [exact Hdata|]. split; [exact Hdisk|].
  split; [exact Hlen|]. intros Hdet.
  exact (abandoned_runs_on E (update E config name cfg) (15 * 1000) w _ w'
           Hrun Hlen Hdet).
Qed.

(** C9, as the code has it.  [updateAll] awaits each entity's cycle without
    a [try]: the first cycle that fails, by running out of its 15 seconds or
    by throwing, ends the sweep there (the entities after it are not
    visited in this sweep, and the sweep's cleanup is skipped).  The
    failure is caught by the [try]/[catch] around the whole sweep in the
    top-level loop, which logs it and sleeps as after any other sweep
    before the next one. *)
Theorem failure_ends_sweep (before after : list (string * ConfigChannelEntry))
    (channel : string) (cfg : ConfigChannelEntry) (w w1 w2 : World) (e : JsError) :
  JS.entries (Config.channels config) = before ++ (channel, cfg) :: after ->
  updateEach E config before w = (Ok tt, w1) ->
  fulfillWithTimeLimit E (15 * 1000) (update E config channel cfg) w1
  = (Thrown e, w2) ->
  updateAll E config w = (Thrown e, w2)
  /\ turn E config w
     = at_time (now w2 + sleepDelay)%N (print error (messageOf e) w2).
Proof.
  intros Hentries Hbefore Hfail.
  assert (Hsweep : updateEach E config (before ++ (channel, cfg) :: after) w
                   = (Thrown e, w2)).
  { clear Hentries. revert w Hbefore.
    induction before as [|[c k] before IH]; intros w Hbefore.
    - injection Hbefore as <-. cbn [app updateEach]. now rewrite Hfail.
    - cbn [app updateEach] in *.
      destruct (fulfillWithTimeLimit E (15 * 1000) (update E config c k) w)
        as [[[]|e'] w'].
      + now apply IH.
      + discriminate. }
  assert (Hall : updateAll E config w = (Thrown e, w2)).
  { unfold updateAll. now rewrite Hentries, Hsweep. }
  split; [exact Hall|]. unfold turn. now rewrite Hall.
Qed.

(** C10 on the code: the sleep between the end of one sweep and the start
    of the next is the [setTimeout] delay [30 * 10000], that is 300000 ms
    (five minutes), not 30000 ms. *)
Theorem sleep_between_sweeps (w : World) :
  now (turn E config w) = (now (snd (updateAll E config w)) + 300000)%N
  /\ sleepDelay = 300000%N
  /\ sleepDelay <> (30 * 1000)%N.
Proof.
  unfold turn. destruct (updateAll E config w) as [[[]|e] w1]; simpl;
    repeat split; discriminate.
Qed.

End Scheduler.

(** ** Chat ids as property keys

    [state.channels[channelId] = ...] turns the number into its decimal
    string; the cleanup reads the key back with [parseInt]. *)

Lemma parse_digits_decimal (d : Decimal.uint) (acc : N) :
  JS.parse_digits 10 (NilEmpty.string_of_uint d) (Some acc) = Some (digitsValue d acc).
Proof.
  revert acc. induction d; intros acc; simpl; auto; rewrite IHd; reflexivity.
Qed.

Lemma digitsValue_pos (d : Decimal.uint) (acc : positive) :
  digitsValue d (Npos acc) = Npos (Pos.of_uint_acc d acc).
Proof.
  revert acc. induction d; intros acc; cbn [digitsValue Pos.of_uint_acc];
    [reflexivity|..]; rewrite <- IHd; f_equal; lia.
Qed.

Lemma digitsValue_of_uint (d : Decimal.uint) : digitsValue d 0 = Pos.of_uint d.
Proof.
  induction d; cbn [digitsValue Pos.of_uint]; auto;
    simpl (10 * 0 + _)%N; apply digitsValue_pos.
Qed.

Lemma mathInt_digits (d : Decimal.uint) :
  d <> Decimal.Nil ->
  JS.mathInt (NilEmpty.string_of_uint d) = Some (Z.of_N (digitsValue d 0)).
Proof.
  intros Hd. destruct d as [|d|d|d|d|d|d|d|d|d|d]; [contradiction|..].
  2-10: unfold JS.mathInt; simpl; rewrite parse_digits_decimal; reflexivity.
  destruct d; unfold JS.mathInt; simpl; try reflexivity;
    rewrite parse_digits_decimal; reflexivity.
Qed.

Lemma mathInt_minus_digits (d : Decimal.uint) :
  d <> Decimal.Nil ->
  JS.mathInt (String "-" (NilEmpty.string_of_uint d))
  = Some (- Z.of_N (digitsValue d 0)).
Proof.
  intros Hd. destruct d as [|d|d|d|d|d|d|d|d|d|d]; [contradiction|..].
  2-10: unfold JS.mathInt; simpl; rewrite parse_digits_decimal; reflexivity.
  destruct d; unfold JS.mathInt; simpl; try reflexivity;
    rewrite parse_digits_decimal; reflexivity.
Qed.

Lemma string_of_uint_nonnil (d : Decimal.uint) :
  d <> Decimal.Nil -> NilZero.string_of_uint d = NilEmpty.string_of_uint d.
Proof. now destruct d. Qed.

Lemma mathInt_of_toString (z : Z) : JS.mathInt (JS.toString z) = Some z.
Proof.
  destruct z as [|p|p]; [reflexivity| |];
    unfold JS.toString; cbn [Z.to_int Pos.to_int NilZero.string_of_int];
    pose proof (DecimalPos.Unsigned.to_uint_nonnil p) as Hnn;
    rewrite (string_of_uint_nonnil _ Hnn).
  - rewrite (mathInt_digits _ Hnn), digitsValue_of_uint,
      DecimalPos.Unsigned.of_to. reflexivity.
  - rewrite (mathInt_minus_digits _ Hnn), digitsValue_of_uint,
      DecimalPos.Unsigned.of_to. reflexivity.
Qed.

Lemma toNumber_safe (z : Z) : JS.isSafeInteger z = true -> JS.toNumber z = Some z.
Proof. unfold JS.isSafeInteger, JS.toNumber. cbv zeta. now intros ->. Qed.

Lemma parseInt_of_toString (z : Z) :
  JS.isSafeInteger z = true -> JS.parseInt (JS.toString z) = Some z.
Proof.
  intros Hz. unfold JS.parseInt. rewrite mathInt_of_toString.
  now apply toNumber_safe.
Qed.

Lemma includes_In (xs : list Z) (z : Z) : JS.includes xs (Some z) = true <-> In z xs.
Proof.
  simpl. rewrite existsb_exists. split.
  - intros [x [Hin Heq]]. apply Z.eqb_eq in Heq. now subst.
  - intros Hin. exists z. split; [exact Hin|apply Z.eqb_refl].
Qed.

(** X1. For a chat id [z] in the safe-integer range (where [String(z)] is
    the plain decimal numeral and [parseInt] is exact), the key under which
    the message of [z] is recorded ([state.channels[z]], line 198) reads
    back as [z] with [parseInt], so the test of the cleanup,
    [channelIds.includes(parseInt(key))] (line 181), holds for that key
    exactly when [z] is among [channelIds]. *)
Theorem chat_key_round_trip (z : Z) (channelIds : list Z) :
  JS.isSafeInteger z = true ->
  JS.parseInt (JS.toString z) = Some z
  /\ (JS.includes channelIds (JS.parseInt (JS.toString z)) = true <-> In z channelIds).
Proof.
  intros Hz. rewrite (parseInt_of_toString z Hz).
  split; [reflexivity|apply includes_In].
Qed.

(** ** The lookups of [update] *)

Section Prelude.

Variable E : Externals.
Variable config : Config.t.

Lemma exec_update_known_bot (name : string) (cfg : ConfigChannelEntry) (w : World)
    (token : string) :
  JS.get (bot cfg) (Config.bots config) = Some token ->
  exec E (update E config name cfg) w
  = let w0 := print log ("Checking user " ++ name ++ "!") w in
    let lookup := getUsersByNames [name] in
    let (r1, dt1) := respond E _ (history w) lookup in
    let w1 := settled lookup r1 dt1 w0 in
    match r1 with
    | Rejected e => (Thrown e, w1)
    | Fulfilled [] => (Ok tt, print log "EMPTY RESULT!" w1)
    | Fulfilled (user :: _) =>
        let w2 := print log ("UserId is " ++ HelixUser.id user ++ "!") w1 in
        let ask := getStreamByUserId (HelixUser.id user) in
        let (r2, dt2) := respond E _ (history w1) ask in
        match r2 with
        | Rejected e => (Thrown e, settled ask r2 dt2 w2)
        | Fulfilled stream =>
            exec E (reconcile E (bot cfg) name cfg stream) (settled ask r2 dt2 w2)
        end
    end.
Proof.
  intros Hbot. unfold update, getBot. rewrite Hbot. cbn [bind]. unfold cycle.
  rewrite exec_bind, exec_sync. cbn [step_sync fst snd].
  rewrite exec_bind, exec_await. cbn [history print].
  destruct (respond E _ (history w) (getUsersByNames [name])) as [[users|e] dt1];
    cbn [fst snd]; [|reflexivity].
  destruct users as [|user others].
  - now rewrite exec_sync.
  - rewrite exec_bind, exec_sync. cbn [step_sync fst snd].
    rewrite exec_bind, exec_await. cbn [history print settled].
    destruct (respond E _ _ (getStreamByUserId (HelixUser.id user))) as [[stream|e] dt2];
      reflexivity.
Qed.

End Prelude.

Section Lookups.

Variable E : Externals.
Variable config : Config.t.

(** X2. When the entry names a bot that [config.bots] does not have, and
    that is no property of [Object.prototype] either, [update] throws
    [Error('Unknown bot <name>')] from [getBot] (lines 45-51, 71) before it
    prints, looks anything up or touches the state; under the time limit
    the sweep gets the same rejection at once. *)
Theorem unknown_bot_stops_update (name : string) (cfg : ConfigChannelEntry)
    (limit : N) (w : World) :
  JS.get (bot cfg) (Config.bots config) = None ->
  JS.inherited (bot cfg) = false ->
  exec E (update E config name cfg) w
  = (Thrown (Error ("Unknown bot " ++ bot cfg)), w)
  /\ fulfillWithTimeLimit E limit (update E config name cfg) w
     = (Thrown (Error ("Unknown bot " ++ bot cfg)), w).
Proof.
  intros Hbot Hproto. unfold fulfillWithTimeLimit, update, getBot.
  rewrite Hbot, Hproto. split; reflexivity.
Qed.

(** X3. When Twitch knows no user of that name (lines 77-81), the cycle
    ends normally after the one lookup: two lines are printed, the state in
    memory and on disk is as before, and no other call is made. *)
Theorem unknown_user_changes_nothing (name : string) (cfg : ConfigChannelEntry)
    (w : World) (token : string) :
  JS.get (bot cfg) (Config.bots config) = Some token ->
  fst (respond E _ (history w) (getUsersByNames [name])) = Fulfilled [] ->
  exists w' : World,
    exec E (update E config name cfg) w = (Ok tt, w')
    /\ data w' = data w
    /\ disk w' = disk w
    /\ history w' = history w ++ [Ev (getUsersByNames [name]) (Fulfilled [])]
    /\ output w'
       = output w ++ [(log, ("Checking user " ++ name ++ "!")%string);
                      (log, "EMPTY RESULT!"%string)].
Proof.
  intros Hbot Hempty. rewrite (exec_update_known_bot E config name cfg w token Hbot).
  cbv zeta. destruct (respond E _ (history w) (getUsersByNames [name])) as [r1 dt1].
  cbn [fst] in Hempty. subst r1. eexists. split; [reflexivity|].
  cbn [data disk history output print settled is_write andb].
  rewrite <- app_assoc. auto.
Qed.

(** X4. When the user lookup or the stream lookup is rejected (lines 77,
    87), [update] is rejected with the same error, the state in memory and
    on disk is as before, and the only calls made are lookups. *)
Theorem failed_lookup_changes_nothing (name : string) (cfg : ConfigChannelEntry)
    (w : World) (token : string) (e : JsError) :
  JS.get (bot cfg) (Config.bots config) = Some token ->
  lookupRejected E name w e ->
  let r := exec E (update E config name cfg) w in
  fst r = Thrown e
  /\ data (snd r) = data w
  /\ disk (snd r) = disk w
  /\ exists evs, history (snd r) = history w ++ evs
                 /\ Forall (fun ev => isLookup (kindOfEvent ev) = true) evs.
Proof.
  intros Hbot Hrej r. subst r.
  rewrite (exec_update_known_bot E config name cfg w token Hbot). cbv zeta.
  unfold lookupRejected in Hrej. cbv zeta in Hrej.
  destruct (respond E _ (history w) (getUsersByNames [name])) as [r1 dt1].
  cbn [fst] in Hrej. destruct Hrej as [->|(user & others & -> & Hrej)].
  - cbn [fst snd data disk history settled print is_write andb].
    repeat split; auto. eexists. split; [reflexivity|]. repeat constructor.
  - cbn [history settled print].
    destruct (respond E _ _ (getStreamByUserId (HelixUser.id user))) as [r2 dt2].
    cbn [fst] in Hrej. subst r2.
    cbn [fst snd data disk history settled print is_write andb].
    repeat split; auto. eexists. split; [now rewrite <- app_assoc|].
    repeat constructor.
Qed.



End Lookups.

(** ** What a whole cycle keeps *)

Section CycleKeeps.

Variable E : Externals.
Variable config : Config.t.
Variable inv : StatusDb -> Prop.

Lemma Keeps_online (bot name : string) (cfg : ConfigChannelEntry) (s : HelixStream.t) :
  (forall f db, inv db -> inv (JS.update name f db)) ->
  Keeps inv anyCall (online E bot name cfg s).
Proof.
  intros Hinv. unfold online.
  apply Keeps_bind; [apply Keeps_console|intros _].
  apply Keeps_bind; [apply Keeps_theState|intros st].
  destruct (strict_eq _ _); [apply Keeps_console|].
  apply Keeps_bind; [apply Keeps_assign; auto|intros _].
  apply Keeps_bind; [apply Keeps_draw|intros rid].
  apply Keeps_bind; [apply Keeps_theState|intros st'].
  destruct (strict_eq _ _); [now apply Keeps_titleChanged|].
  apply Keeps_bind; [apply Keeps_assign; auto|intros _].
  apply Keeps_bind; [apply Keeps_console|intros _].
  apply Keeps_bind; [apply Keeps_cleanupRemoved; auto|intros _].
  apply Keeps_notify; auto.
Qed.

Lemma Keeps_reconcile (bot name : string) (cfg : ConfigChannelEntry)
    (stream : option HelixStream.t) :
  (forall f db, inv db -> inv (JS.update name f db)) ->
  Keeps inv anyCall (reconcile E bot name cfg stream).
Proof.
  intros Hinv. destruct stream as [s|]; cbn [reconcile].
  - now apply Keeps_online.
  - apply Keeps_offline; auto.
Qed.

Lemma Keeps_withoutTelegram {A : Type} (p : Prog A) (allowed : Kind -> bool) :
  Keeps inv allowed p -> Keeps inv allowed (withoutTelegram p).
Proof.
  induction 1 as [a|e|X op k Hop Hk IH|X c k Hc Hk IH]; cbn [withoutTelegram].
  - constructor.
  - constructor.
  - now constructor.
  - destruct (telegramMethod c); [apply IH|now constructor].
Qed.

Lemma Keeps_cycle (bot name : string) (cfg : ConfigChannelEntry) :
  (forall f db, inv db -> inv (JS.update name f db)) ->
  Keeps inv anyCall (cycle E bot name cfg).
Proof.
  intros Hinv. unfold cycle.
  apply Keeps_bind; [apply Keeps_console|intros _].
  apply Keeps_bind; [now apply Keeps_await|intros users].
  destruct users as [|user others]; [apply Keeps_console|].
  apply Keeps_bind; [apply Keeps_console|intros _].
  apply Keeps_bind; [now apply Keeps_await|intros stream].
  now apply Keeps_reconcile.
Qed.

Lemma Keeps_update (name : string) (cfg : ConfigChannelEntry) :
  (forall f db, inv db -> inv (JS.update name f db)) ->
  Keeps inv anyCall (update E config name cfg).
Proof.
  intros Hinv. unfold update, getBot.
  destruct (JS.get (bot cfg) (Config.bots config)); cbn [bind].
  - now apply Keeps_cycle.
  - destruct (JS.inherited (bot cfg)); cbn [bind]; [|constructor].
    apply Keeps_withoutTelegram. now apply Keeps_cycle.
Qed.

(** The same when the task is run against a timer, and for what is left of
    it when the timer wins. *)
Lemma Keeps_race {A : Type} (p : Prog A) (allowed : Kind -> bool) :
  Keeps inv allowed p ->
  forall early deadline w, inv (data w) ->
    inv (data (snd (race E early deadline p w)))
    /\ forall rest, fst (race E early deadline p w) = Expired rest ->
                    Keeps inv allowed rest.
Proof.
  induction 1 as [a|e|X op k Hop Hk IH|X c k Hc Hk IH]; intros early deadline w Hw;
    cbn [race].
  - split; [exact Hw|discriminate].
  - split; [exact Hw|discriminate].
  - destruct (step_sync E op w) as [x w'] eqn:Hs. apply IH.
    replace w' with (snd (step_sync E op w)) by now rewrite Hs.
    rewrite data_step_sync. auto.
  - destruct (respond E X (history w) c) as [r dt].
    destruct (if early then now w + dt <=? deadline else now w + dt <? deadline)%N.
    + apply IH. exact Hw.
    + split; [exact Hw|]. intros rest [= <-]. now constructor.
Qed.

Lemma Keeps_fulfillWithTimeLimit {A : Type} (p : Prog A) (allowed : Kind -> bool)
    (limit : N) (w : World) :
  Keeps inv allowed p -> inv (data w) ->
  inv (data (snd (fulfillWithTimeLimit E limit p w))).
Proof.
  intros Hp Hw. unfold fulfillWithTimeLimit.
  destruct (Keeps_race p allowed Hp true (now w + limit)%N w Hw) as [Hd _].
  destruct (race E true (now w + limit) p w) as [[o|rest] w']; exact Hd.
Qed.

End CycleKeeps.

(** ** Sweeps *)

Lemma keys_update {V : Type} (k : string) (f : V -> V) (o : JS.Obj V) :
  map fst (JS.update k f o) = map fst o.
Proof.
  induction o as [|[k' v] o IH]; simpl; [reflexivity|].
  destruct (String.eqb k' k); simpl; congruence.
Qed.

Lemma get_delete {V : Type} (k n : string) (o : JS.Obj V) :
  JS.get n (JS.delete k o) = if String.eqb k n then None else JS.get n o.
Proof.
  induction o as [|[k' v] o IH]; simpl.
  - now destruct (String.eqb k n).
  - destruct (String.eqb_spec k' k) as [->|Hk]; simpl.
    + rewrite IH. destruct (String.eqb k n); reflexivity.
    + rewrite IH. destruct (String.eqb_spec k n) as [->|Hn].
      * destruct (String.eqb_spec k' n); [congruence|reflexivity].
      * reflexivity.
Qed.

Lemma get_filter_key {V : Type} (p : string -> bool) (n : string) (o : JS.Obj V) :
  JS.get n (filter (fun kv => p (fst kv)) o) = if p n then JS.get n o else None.
Proof.
  induction o as [|[k v] o IH]; simpl.
  - now destruct (p n).
  - destruct (p k) eqn:Hk; simpl.
    + destruct (String.eqb_spec k n) as [->|Hn]; [now rewrite Hk|exact IH].
    + rewrite IH. destruct (String.eqb_spec k n) as [->|Hn]; [now rewrite Hk|reflexivity].
Qed.

Section Sweeps.

Variable E : Externals.
Variable config : Config.t.

(** X6. A cycle of [update] for [name], run under any time limit and
    however the calls settle, neither adds nor removes a record of
    [statusDb.data], and leaves the record of every other name as it
    was. *)
Theorem cycle_touches_only_its_record (name : string) (cfg : ConfigChannelEntry)
    (limit : N) (w : World) :
  let w' := snd (fulfillWithTimeLimit E limit (update E config name cfg) w) in
  map fst (data w') = map fst (data w)
  /\ forall n, n <> name -> JS.get n (data w') = JS.get n (data w).
Proof.
  cbv zeta. split.
  - apply (Keeps_fulfillWithTimeLimit E (fun db => map fst db = map fst (data w))
             _ anyCall); [|reflexivity].
    apply Keeps_update. intros f db Hdb. now rewrite keys_update.
  - intros n Hn.
    apply (Keeps_fulfillWithTimeLimit E (fun db => JS.get n db = JS.get n (data w))
             _ anyCall); [|reflexivity].
    apply Keeps_update. intros f db Hdb. now apply other_update.
Qed.

Lemma hasEntry_spec (n : string) :
  hasEntry config n = isConfigured config n || JS.inherited n.
Proof.
  unfold hasEntry, isConfigured.
  now destruct (JS.get n (Config.channels config)).
Qed.

Lemma Keeps_removeUnconfigured (inv : StatusDb -> Prop) :
  (forall n db, hasEntry config n = false -> inv db -> inv (JS.delete n db)) ->
  Keeps inv anyCall (removeUnconfigured config).
Proof.
  intros Hinv. unfold removeUnconfigured.
  apply Keeps_bind; [constructor; [auto|constructor]|intros names].
  apply Keeps_bind.
  - apply Keeps_forOfWith. intros channel changes.
    destruct (hasEntry config channel) eqn:Hc; [constructor|].
    apply Keeps_bind; [|intros _].
    + constructor; [|constructor]. intros db. now apply Hinv.
    + apply Keeps_bind; [apply Keeps_console|intros _]. constructor.
  - intros changes. destruct changes; [now apply Keeps_await|constructor].
Qed.

Lemma record_kept_by_update (n name : string) (f : ChannelState -> ChannelState)
    (db : StatusDb) :
  JS.get n db <> None -> JS.get n (JS.update name f db) <> None.
Proof.
  intros Hn. rewrite get_update. destruct (String.eqb name n); auto.
  now destruct (JS.get n db).
Qed.

(** What a step of a task does to a property its assignments keep. *)
Lemma Keeps_taskStep (inv : StatusDb -> Prop) (allowed : Kind -> bool)
    (p p' : Prog unit) (w w' : World) :
  Keeps inv allowed p -> taskStep E p w p' w' -> inv (data w) ->
  Keeps inv allowed p' /\ inv (data w').
Proof.
  intros Hp. destruct Hp as [a|e|X op k Hop Hk|X c k Hc Hk]; cbn [taskStep].
  - intros [].
  - intros [].
  - intros [-> ->] Hw. split; [apply Hk|]. rewrite data_step_sync. auto.
  - intros (r & -> & Hd) Hw. split; [apply Hk|]. now rewrite Hd.
Qed.

Lemma processStep_keeps (n : string) (s1 s2 : World * list (Prog unit)) :
  isConfigured config n = true ->
  processStep E config s1 s2 ->
  JS.get n (data (fst s1)) <> None
  /\ Forall (Keeps (fun db => JS.get n db <> None) anyCall) (snd s1) ->
  JS.get n (data (fst s2)) <> None
  /\ Forall (Keeps (fun db => JS.get n db <> None) anyCall) (snd s2).
Proof.
  intros Hn Hstep.
  destruct Hstep as [w tasks channel cfg Hin|w tasks|w w' before after p p' Hp
                    |w w' tasks Hd]; cbn [fst snd]; intros [Hw Htasks].
  - split; [exact Hw|]. apply Forall_app. split; [exact Htasks|].
    constructor; [|constructor]. apply Keeps_update.
    intros f db. apply record_kept_by_update.
  - split; [exact Hw|]. apply Forall_app. split; [exact Htasks|].
    constructor; [|constructor]. apply Keeps_removeUnconfigured.
    intros k db Hk Hdb. rewrite get_delete.
    destruct (String.eqb_spec k n) as [->|]; [|exact Hdb].
    rewrite hasEntry_spec, Hn in Hk. discriminate.
  - apply Forall_app in Htasks. destruct Htasks as [Hb Hpa].
    inversion Hpa as [|? ? Hkp Ha]; subst.
    destruct (Keeps_taskStep _ _ p p' w w' Hkp Hp Hw) as [Hkp' Hw'].
    split; [exact Hw'|]. apply Forall_app. split; [exact Hb|].
    now constructor.
  - split; [now rewrite Hd|exact Htasks].
Qed.

(** X7. A record of a configured name that is in [statusDb.data] stays
    there whatever the process goes through: cycles of [update] for the
    entries of the configuration and cleanups, started at any moment and
    taking turns in any order, with calls that settle in any way; that
    covers the cycles the timer has given up on, which go on during the
    sleep or a later sweep. *)
Theorem configured_records_stay (n : string) (w w' : World)
    (tasks' : list (Prog unit)) :
  isConfigured config n = true ->
  JS.get n (data w) <> None ->
  processRun E config (w, []) (w', tasks') ->
  JS.get n (data w') <> None.
Proof.
  intros Hn Hw Hrun.
  assert (Hinv : JS.get n (data (fst (w, @nil (Prog unit)))) <> None
                 /\ Forall (Keeps (fun db => JS.get n db <> None) anyCall)
                      (snd (w, @nil (Prog unit)))) by (split; [exact Hw|constructor]).
  revert Hinv.
  change (JS.get n (data w') <> None) with (JS.get n (data (fst (w', tasks'))) <> None).
  induction Hrun as [s|s1 s2 s3 Hstep Hrun IH]; intros Hinv.
  - exact (proj1 Hinv).
  - apply IH. exact (processStep_keeps n s1 s2 Hn Hstep Hinv).
Qed.

End Sweeps.
(** *** The cleanup of [updateAll] *)

Section Cleanup.

Variable E : Externals.
Variable config : Config.t.

(** The loop of lines 246-253, on any list of names. *)
Lemma exec_remove_loop (names : list string) (changes : bool) (w : World) :
  exists w' : World,
    exec E (forOfWith names changes (fun channel changes =>
              if hasEntry config channel then Ret changes
              else
                sync (deleteState channel) ;;
                sync (console log ("Removing " ++ channel ++ " from db")) ;;
                Ret true)) w
    = (Ok (changes || existsb (fun n => negb (hasEntry config n)) names), w')
    /\ data w'
       = fold_left (fun db n => if hasEntry config n then db else JS.delete n db)
           names (data w)
    /\ disk w' = disk w
    /\ history w' = history w
    /\ output w'
       = output w
         ++ map (fun n => (log, ("Removing " ++ n ++ " from db")%string))
              (filter (fun n => negb (hasEntry config n)) names)
    /\ draws w' = draws w /\ now w' = now w /\ detached w' = detached w.
Proof.
  revert changes w. induction names as [|n names IH]; intros changes w.
  - exists w. simpl. rewrite orb_false_r, app_nil_r. repeat split; auto.
  - cbn [forOfWith existsb fold_left filter]. rewrite exec_bind.
    destruct (hasEntry config n) eqn:Hc.
    + cbn [negb orb exec].
      destruct (IH changes w) as (w' & Hex & Hd & Hdisk & Hh & Hout & Hdr & Hnow & Hdet).
      exists w'. rewrite Hex. repeat split; auto.
    + cbn [negb orb].
      rewrite exec_bind, exec_sync. cbn [step_sync fst snd].
      rewrite exec_bind, exec_sync. cbn [step_sync fst snd exec].
      destruct (IH true (print log ("Removing " ++ n ++ " from db")
                           (with_data (JS.delete n) w)))
        as (w' & Hex & Hd & Hdisk & Hh & Hout & Hdr & Hnow & Hdet).
      exists w'. rewrite Hex, Hd, Hdisk, Hh, Hout, Hdr, Hnow, Hdet.
      cbn [data disk history output draws now detached print with_data map orb].
      rewrite orb_true_r, <- app_assoc. repeat split; auto.
Qed.

Lemma remove_fold_filter (db : StatusDb) :
  fold_left (fun db n => if hasEntry config n then db else JS.delete n db)
    (JS.keys db) db
  = filter (fun kv => hasEntry config (fst kv)) db.
Proof.
  rewrite <- (filter_true db) at 2.
  rewrite (fold_delete_filter (hasEntry config)).
  apply filter_ext_in. intros [k v] Hin. simpl.
  assert (Hk : existsb (String.eqb k) (JS.keys db) = true).
  { apply existsb_exists. exists k. split; [|apply String.eqb_refl].
    apply In_keys. eauto. }
  rewrite Hk. now rewrite orb_false_r.
Qed.

Lemma all_listed_spec (db : StatusDb) :
  existsb (fun n => negb (hasEntry config n)) (JS.keys db) = false ->
  filter (fun kv => hasEntry config (fst kv)) db = db
  /\ filter (fun n => negb (hasEntry config n)) (JS.keys db) = [].
Proof.
  intros Hall. split.
  - rewrite <- (filter_true db) at 2. apply filter_ext_in. intros [k v] Hin. simpl.
    destruct (hasEntry config k) eqn:Hk; [reflexivity|].
    assert (Hex : existsb (fun n => negb (hasEntry config n)) (JS.keys db) = true).
    { apply existsb_exists. exists k. split; [apply In_keys; eauto|now rewrite Hk]. }
    congruence.
  - induction (JS.keys db) as [|n l IH]; [reflexivity|]. cbn [existsb filter] in *.
    apply orb_false_elim in Hall. destruct Hall as [Hn Hl].
    rewrite Hn. auto.
Qed.

Lemma filter_listed (db : StatusDb) :
  filter (fun kv => hasEntry config (fst kv)) db
  = filter (fun kv => isConfigured config (fst kv) || JS.inherited (fst kv)) db.
Proof. apply filter_ext. intros kv. apply hasEntry_spec. Qed.

Lemma existsb_unlisted (names : list string) :
  existsb (fun n => negb (hasEntry config n)) names
  = existsb (fun n => negb (isConfigured config n || JS.inherited n)) names.
Proof.
  induction names as [|n l IH]; cbn [existsb]; [reflexivity|].
  now rewrite IH, hasEntry_spec.
Qed.

Lemma data_removeUnconfigured (w : World) :
  data (snd (exec E (removeUnconfigured config) w))
  = filter (fun kv => isConfigured config (fst kv) || JS.inherited (fst kv)) (data w).
Proof.
  unfold removeUnconfigured.
  rewrite exec_bind, exec_sync. cbn [step_sync fst snd]. rewrite exec_bind.
  destruct (exec_remove_loop (JS.keys (data w)) false w)
    as (w' & Hex & Hd & _).
  rewrite Hex. rewrite remove_fold_filter, filter_listed in Hd.
  destruct (false || existsb (fun n => negb (hasEntry config n)) (JS.keys (data w))).
  - rewrite exec_await. exact Hd.
  - exact Hd.
Qed.

(** X8. The cleanup of [updateAll] (lines 244-256) keeps, in their order,
    the records under a name for which [config.channels[name]] is truthy:
    the configured names and those [Object.prototype] has (a record named
    [constructor] is never removed); it removes the others.  When there is
    nothing to remove it does nothing at all; otherwise it writes the file
    once, its outcome is that of the write, and the file has the new data
    when the write succeeds and is as before when it fails. *)
Theorem cleanup_removes_unconfigured (w : World) :
  let r := exec E (removeUnconfigured config) w in
  let kept (n : string) := isConfigured config n || JS.inherited n in
  let stale := existsb (fun n => negb (kept n)) (JS.keys (data w)) in
  let answer := fst (respond E unit (history w) statusDb_write) in
  data (snd r) = filter (fun kv => kept (fst kv)) (data w)
  /\ (forall n, JS.get n (data (snd r)) = if kept n then JS.get n (data w) else None)
  /\ if stale
     then history (snd r) = history w ++ [Ev statusDb_write answer]
          /\ fst r = match answer with
                     | Fulfilled _ => Ok tt
                     | Rejected e => Thrown e
                     end
          /\ disk (snd r) = if is_fulfilled answer then data (snd r) else disk w
     else r = (Ok tt, w).
Proof.
  cbv zeta. split; [apply data_removeUnconfigured|].
  split.
  { intros n. rewrite data_removeUnconfigured.
    apply (get_filter_key (fun n => isConfigured config n || JS.inherited n)). }
  unfold removeUnconfigured.
  rewrite exec_bind, exec_sync. cbn [step_sync fst snd]. rewrite exec_bind.
  destruct (exec_remove_loop (JS.keys (data w)) false w)
    as (w' & Hex & Hd & Hdisk & Hh & Hout & Hdr & Hnow & Hdet).
  rewrite Hex. cbn [orb]. rewrite remove_fold_filter in Hd.
  rewrite <- existsb_unlisted.
  destruct (existsb (fun n => negb (hasEntry config n)) (JS.keys (data w)))
    eqn:Hstale.
  - rewrite exec_await, Hh. cbn [fst snd data settled].
    cbn [history disk settled is_write andb]. rewrite Hh, Hdisk.
    destruct (fst (respond E unit (history w) statusDb_write)) as [[]|e]; auto.
  - cbn [exec fst snd].
    destruct (all_listed_spec (data w) Hstale) as [Hsame Hnone].
    rewrite Hsame in Hd. rewrite Hnone in Hout. cbn [map] in Hout.
    rewrite app_nil_r in Hout.
    f_equal. destruct w, w'. cbn in *. subst. reflexivity.
Qed.

End Cleanup.

(** *** After a sweep; the time limit *)

Section TimeLimit.

Variable E : Externals.
Variable config : Config.t.

(** X9. When a sweep ends without an error, no record is left in
    [statusDb.data] under a name that is neither configured nor a property
    of [Object.prototype]. *)
Theorem finished_sweep_drops_unconfigured (w : World) (n : string) :
  fst (updateAll E config w) = Ok tt ->
  isConfigured config n = false ->
  JS.inherited n = false ->
  JS.get n (data (snd (updateAll E config w))) = None.
Proof.
  unfold updateAll.
  destruct (updateEach E config (JS.entries (Config.channels config)) w)
    as [[[]|e] w1]; [|discriminate].
  intros _ Hn Hp.
  rewrite (data_removeUnconfigured E config w1).
  rewrite (get_filter_key (fun n => isConfigured config n || JS.inherited n)).
  now rewrite Hn, Hp.
Qed.


(** X11. Nothing cancels a task the timer has given up on: when it goes
    on, it does to the state, the file, the services and the console all
    that it would have done without a time limit. *)
Theorem timed_out_task_runs_to_its_end (task : Prog unit) (limit : N) (w : World) :
  (0 < limit)%N ->
  detached w = [] ->
  (now w + limit <= now (snd (exec E task w)))%N ->
  let later := resumeDetached E (snd (fulfillWithTimeLimit E limit task w)) in
  let unlimited := snd (exec E task w) in
  data later = data unlimited
  /\ disk later = disk unlimited
  /\ history later = history unlimited
  /\ output later = output unlimited.
Proof.
  intros Hlimit Hdet Hle later unlimited. subst later unlimited.
  unfold fulfillWithTimeLimit.
  pose proof (race_detached E task true (now w + limit)%N w) as Hd.
  destruct (race E true (now w + limit) task w) as [[o|rest] w'] eqn:Hrace;
    cbn [snd] in *.
  - rewrite Hdet in Hd.
    rewrite (race_finished E task true _ w o w' Hrace). cbn [snd].
    unfold resumeDetached. rewrite Hd. cbn [fold_left data disk history output].
    auto.
  - exact (resumed_as_unlimited E task true (now w + limit)%N w rest w' Hrace Hdet).
Qed.

End TimeLimit.

(** *** How long things take *)

Section Clock.

Variable E : Externals.
Variable config : Config.t.

(** X12. Whatever the task does, the caller of [fulfillWithTimeLimit]
    waits no longer than the limit (time is spent in calls only). *)
Theorem time_limit_bounds_the_wait {T : Type} (task : Prog T) (limit : N) (w : World) :
  let w' := snd (fulfillWithTimeLimit E limit task w) in
  (now w <= now w' <= now w + limit)%N.
Proof.
  cbv zeta. unfold fulfillWithTimeLimit.
  pose proof (proj1 (race_now_bound E task true (now w + limit) w ltac:(lia))) as H.
  destruct (race E true (now w + limit) task w) as [[o|rest] w1]; cbn [snd] in *;
    exact H.
Qed.

(** X13. The loop over the configured entities (lines 241-243) takes at
    most 15 seconds for each of them, whatever the services do. *)
Theorem sweep_time_bound (l : list (string * ConfigChannelEntry)) (w : World) :
  (now w <= now (snd (updateEach E config l w))
   <= now w + 15000 * N.of_nat (List.length l))%N.
Proof.
  revert w. induction l as [|[n c] l IH]; intros w; cbn [updateEach].
  - cbn [snd List.length]. lia.
  - unfold fulfillWithTimeLimit.
    pose proof (proj1 (race_now_bound E (update E config n c) true
                         (now w + 15 * 1000) w ltac:(lia))) as H.
    destruct (race E true (now w + 15 * 1000) (update E config n c) w)
      as [[[[]|e]|rest] w1]; cbn [snd now detach] in *.
    + specialize (IH w1). cbn [List.length]. lia.
    + cbn [List.length]. lia.
    + cbn [List.length]. lia.
Qed.

Lemma updateAll_now (w : World) : (now w <= now (snd (updateAll E config w)))%N.
Proof.
  unfold updateAll. revert w.
  generalize (JS.entries (Config.channels config)).
  induction l as [|[n c] l IH]; intros w; cbn [updateEach].
  - apply exec_now_mono.
  - unfold fulfillWithTimeLimit.
    pose proof (proj1 (race_now_bound E (update E config n c) true
                         (now w + 15 * 1000) w ltac:(lia))) as H.
    destruct (race E true (now w + 15 * 1000) (update E config n c) w)
      as [[[[]|e]|rest] w1]; cbn [snd now detach] in *; [|lia|lia].
    specialize (IH w1). lia.
Qed.

Lemma turn_now (w : World) : (now w + 300000 <= now (turn E config w))%N.
Proof.
  unfold turn. pose proof (updateAll_now w) as H.
  destruct (updateAll E config w) as [[[]|e] w1];
    cbn [snd now at_time print] in *; unfold sleepDelay; lia.
Qed.

(** X14. The main loop (lines 271-282) sleeps after every sweep, also
    after one that failed: [turns] turns take at least [turns] times
    300000 ms. *)
Theorem loop_clock (turns : nat) (w : World) :
  (now w + 300000 * N.of_nat turns <= now (mainLoop E config turns w))%N.
Proof.
  revert w. induction turns as [|k IH]; intros w; cbn [mainLoop]; [lia|].
  specialize (IH (turn E config w)). pose proof (turn_now w). lia.
Qed.

End Clock.

(** ** More on the branches of [update] *)

Section Branches.

Variable E : Externals.

(** X15. The cleanup before a fan-out (lines 179-191) never fails and
    makes no call; of [state.channels] it keeps the entries whose key reads
    ([parseInt], rounded to a Number as JavaScript does) as a configured
    channel id and removes the others, and it leaves [state.groups] alone.
    With configured channel ids in the safe-integer range, the entry of
    every configured channel is kept. *)
Theorem cleanup_keeps_configured_channels (name : string) (cfg : ConfigChannelEntry)
    (w : World) (st : ChannelState) :
  JS.get name (data w) = Some st ->
  Forall (fun c => JS.isSafeInteger c = true) (channelIds cfg) ->
  exists (w' : World) (st' : ChannelState),
    exec E (cleanupRemoved name cfg) w = (Ok tt, w')
    /\ JS.get name (data w') = Some st'
    /\ (forall k, JS.get k (channels st')
                  = if JS.includes (channelIds cfg) (JS.parseInt k)
                    then JS.get k (channels st)
                    else None)
    /\ (forall c, In c (channelIds cfg) ->
                  JS.get (JS.toString c) (channels st')
                  = JS.get (JS.toString c) (channels st))
    /\ groups st' = groups st
    /\ history w' = history w.
Proof.
  intros Hst Hsafe.
  destruct (exec_cleanupRemoved E name cfg w st Hst)
    as (w' & st' & Hex & Hh & Hdisk & Hout & Hg & Hi & Ht & Hgr & Hc & Ho).
  exists w', st'. repeat split; auto.
  - intros k. rewrite Hc. unfold configuredOnly.
    apply (get_filter_key (fun k => JS.includes (channelIds cfg) (JS.parseInt k))).
  - intros c Hin. rewrite Hc. unfold configuredOnly.
    rewrite (get_filter_key (fun k => JS.includes (channelIds cfg) (JS.parseInt k))).
    rewrite (parseInt_of_toString c (proj1 (Forall_forall _ _) Hsafe c Hin)).
    now rewrite (proj2 (includes_In (channelIds cfg) c) Hin).
Qed.

(** *** Offline, with nothing pinned *)

Lemma exec_unpin_nothing (bot name : string) (l : list (string * option Z)) (w : World) :
  (forall g v, In (g, v) l -> JS.falsy v = true) ->
  exec E (forOf l (unpinOne bot name)) w = (Ok tt, w).
Proof.
  induction l as [|[g v] l IH]; intros Hl; cbn [forOf]; [reflexivity|].
  rewrite exec_bind.
  assert (Hv : JS.falsy v = true) by (apply (Hl g); now left).
  unfold unpinOne at 1, ifMissing. destruct v as [m|]; [rewrite Hv|]; cbn [exec];
    apply IH; intros g' v' Hin; apply (Hl g'); now right.
Qed.

(** X16. Offline with no message id recorded for any group (lines
    88-128): the cycle prints ['Not online!'] and does nothing else, no
    call and no write. *)
Theorem offline_with_nothing_pinned (bot name : string) (cfg : ConfigChannelEntry)
    (w : World) (st : ChannelState) :
  JS.get name (data w) = Some st ->
  (forall g v, In (g, v) (groups st) -> JS.falsy v = true) ->
  exec E (reconcile E bot name cfg None) w = (Ok tt, print log "Not online!" w).
Proof.
  intros Hst Hnone. cbn [reconcile]. unfold offline.
  rewrite exec_bind, exec_sync. cbn [step_sync fst snd].
  rewrite exec_bind, exec_theState. cbn [data print]. rewrite Hst.
  apply exec_unpin_nothing. intros g v Hin. apply (Hnone g).
  exact (proj1 (In_entries _ _) Hin).
Qed.

Lemma In_set {V : Type} (k g : string) (x v : V) (o : JS.Obj V) :
  NoDup (map fst o) ->
  In (g, v) (JS.set k x o) -> (g = k /\ v = x) \/ (g <> k /\ In (g, v) o).
Proof.
  induction o as [|[k0 v0] o IH]; intros Hnd Hin; simpl in *.
  - destruct Hin as [[= <- <-]|[]]. auto.
  - inversion Hnd as [|? ? Hk0 Hnd']; subst.
    destruct (String.eqb_spec k0 k) as [->|Hk].
    + destruct Hin as [[= <- <-]|Hin]; [auto|].
      right. split; [|now right]. intros ->. apply Hk0.
      apply in_map_iff. now exists (k, v).
    + destruct Hin as [[= <- <-]|Hin]; [right; split; auto|].
      destruct (IH Hnd' Hin) as [?|[? ?]]; auto.
Qed.

Lemma keys_set {V : Type} (k : string) (x : V) (o : JS.Obj V) :
  NoDup (map fst o) -> NoDup (map fst (JS.set k x o)).
Proof.
  induction o as [|[k0 v0] o IH]; intros Hnd; simpl.
  - constructor; [intros []|constructor].
  - inversion Hnd as [|? ? Hk0 Hnd']; subst.
    destruct (String.eqb_spec k0 k) as [->|Hk]; simpl; [exact Hnd|].
    constructor; [|auto]. intros Hin. apply in_map_iff in Hin.
    destruct Hin as [[g v] [Hg Hin]]. simpl in Hg. subst g.
    destruct (In_set k k0 x v o Hnd' Hin) as [[? ?]|[_ Hin']]; [congruence|].
    apply Hk0. apply in_map_iff. now exists (k0, v).
Qed.

Lemma clearAll_rest (ids : list (string * Z)) (o : JS.Obj (option Z)) (g : string)
    (v : option Z) :
  NoDup (map fst o) ->
  In (g, v) (clearAll ids o) ->
  v = None \/ (In (g, v) o /\ ~ In g (map fst ids)).
Proof.
  unfold clearAll. revert o. induction ids as [|[k m] ids IH]; intros o Hnd Hin.
  - right. split; [exact Hin|intros []].
  - cbn [fold_left fst] in Hin.
    destruct (IH (JS.set k None o) (keys_set k None o Hnd) Hin) as [?|[Hin' Hg]];
      [auto|].
    destruct (In_set k g None v o Hnd Hin') as [[_ ?]|[Hne Hold]]; [auto|].
    right. split; [exact Hold|]. cbn [map fst]. intros [?|?]; [congruence|auto].
Qed.

(** X17. After a cycle that found the stream offline (ids valid, writes
    succeeding), a second such cycle prints ['Not online!'] and does
    nothing else: every group entry has been cleared. *)
Theorem offline_twice (bot name : string) (cfg : ConfigChannelEntry)
    (w : World) (st : ChannelState) :
  JS.get name (data w) = Some st ->
  NoDup (map fst (groups st)) ->
  validIds (groups st) ->
  writesSucceed E ->
  let w1 := snd (exec E (reconcile E bot name cfg None) w) in
  exec E (reconcile E bot name cfg None) w1 = (Ok tt, print log "Not online!" w1).
Proof.
  intros Hst Hnd Hvalid Hw w1.
  assert (Hnow : exists st', JS.get name (data w1) = Some st'
                             /\ groups st' = clearAll (recorded (groups st)) (groups st)).
  { subst w1. cbn [reconcile]. unfold offline.
    rewrite exec_bind, exec_sync. cbn [step_sync fst snd].
    rewrite exec_bind, exec_theState. cbn [data print]. rewrite Hst.
    assert (Hv : forall k, ~ In (k, Some 0) (JS.entries (groups st))).
    { intros k Hin. apply (Hvalid k). exact (proj1 (In_entries _ _) Hin). }
    destruct (exec_unpin_loop E bot name Hw (JS.entries (groups st)) Hv
                (print log "Not online!" w) st Hst)
      as (w' & st' & rs & Hex & _ & _ & Hg & _ & _ & _ & Hgr & _).
    rewrite Hex. exists st'. auto. }
  destruct Hnow as (st' & Hget & Hgr).
  cbn [reconcile]. unfold offline.
  rewrite exec_bind, exec_sync. cbn [step_sync fst snd].
  rewrite exec_bind, exec_theState. cbn [data print]. rewrite Hget.
  apply exec_unpin_nothing. intros g v Hin.
  apply (proj1 (In_entries _ _)) in Hin. rewrite Hgr in Hin.
  destruct (clearAll_rest _ _ g v Hnd Hin) as [->|[Hold Hg]]; [reflexivity|].
  destruct v as [m|]; [|reflexivity]. exfalso. apply Hg.
  apply in_map_iff. exists (g, m). split; [reflexivity|].
  apply In_withId. exact (proj2 (In_entries _ _) Hold).
Qed.

End Branches.

(** ** Startup *)

Section Startup.

Variable config : Config.t.

Lemma spread_asStored (s : ChannelState) : spreadOverDefaults (Some (asStored s)) = s.
Proof. now destruct s. Qed.

Lemma set_same {V : Type} (k : string) (v : V) (o : JS.Obj V) :
  JS.get k o = Some v -> JS.set k v o = o.
Proof.
  induction o as [|[k' v'] o IH]; simpl; [discriminate|].
  destruct (String.eqb k' k); [now intros [= ->]|].
  intros H. now rewrite IH.
Qed.

Lemma isConfigured_keys (name : string) :
  isConfigured config name = true <-> In name (JS.keys (Config.channels config)).
Proof.
  unfold isConfigured. rewrite In_keys. split.
  - destruct (JS.get name (Config.channels config)) as [c|] eqn:Hc; [|discriminate].
    intros _. exists c. now apply get_In.
  - intros [c Hin]. destruct (In_get _ _ _ Hin) as [c' ->]. reflexivity.
Qed.

Lemma startup_fold (names : list string) (db : JS.Obj Stored.t) (name : string) :
  JS.get name
    (fold_left (fun db channel =>
                  JS.set channel (asStored (spreadOverDefaults (JS.get channel db))) db)
       names db)
  = if existsb (String.eqb name) names
    then Some (asStored (spreadOverDefaults (JS.get name db)))
    else JS.get name db.
Proof.
  revert db. induction names as [|k ks IH]; intros db; cbn [fold_left existsb];
    [reflexivity|].
  rewrite IH. destruct (String.eqb_spec name k) as [->|Hne]; cbn [orb].
  - rewrite get_set_same, spread_asStored.
    now destruct (existsb (String.eqb k) ks).
  - now rewrite (get_set_other _ _ _ _ Hne).
Qed.

Lemma existsb_keys (name : string) :
  existsb (String.eqb name) (JS.keys (Config.channels config))
  = isConfigured config name.
Proof.
  apply eq_true_iff_eq. rewrite isConfigured_keys, existsb_exists. split.
  - intros [k [Hin Hk]]. apply String.eqb_eq in Hk. now subst.
  - intros Hin. exists name. split; [exact Hin|apply String.eqb_refl].
Qed.

(** X18. After the startup loop (lines 58-67) the record of a
    configured name has all four fields: those the file had keep their
    value, the others get the default ([null], [null], [{}], [{}]); the
    record of any other name is as the file had it. *)
Theorem startup_records (file : option (JS.Obj Stored.t)) (name : string) :
  let read := match file with Some db => db | None => [] end in
  JS.get name (startup config file)
  = if isConfigured config name
    then Some (asStored (spreadOverDefaults (JS.get name read)))
    else JS.get name read.
Proof.
  cbv zeta. unfold startup. rewrite startup_fold, existsb_keys. reflexivity.
Qed.

Lemma startup_fold_same (names : list string) (db : JS.Obj Stored.t) :
  (forall k, In k names -> exists s, JS.get k db = Some (asStored s)) ->
  fold_left (fun db channel =>
               JS.set channel (asStored (spreadOverDefaults (JS.get channel db))) db)
    names db = db.
Proof.
  induction names as [|k ks IH]; intros H; cbn [fold_left]; [reflexivity|].
  destruct (H k (or_introl eq_refl)) as [s Hs].
  rewrite Hs, spread_asStored, (set_same _ _ _ Hs).
  apply IH. intros k' Hin. apply H. now right.
Qed.

(** X19. Starting again from the data a startup left changes
    nothing. *)
Theorem startup_again (file : option (JS.Obj Stored.t)) :
  startup config (Some (startup config file)) = startup config file.
Proof.
  unfold startup at 1. apply startup_fold_same. intros k Hin.
  apply isConfigured_keys in Hin.
  eexists. unfold startup. rewrite startup_fold, existsb_keys, Hin. reflexivity.
Qed.

End Startup.

(** ** The statements on concrete runs *)

Section Runs.

Import Sample.

Lemma quiet_writes : writesSucceed quiet.
Proof. intros h. reflexivity. Qed.

Lemma quiet_edits : editsSucceed quiet.
Proof. intros h b c m t. reflexivity. Qed.

Lemma quiet_sends : sendsSucceed quiet.
Proof. intros h b c t. eexists. reflexivity. Qed.

Lemma quiet_pins : pinsSucceed quiet.
Proof. intros h b c m. reflexivity. Qed.

Lemma notified_valid : validIds (channels notified) /\ validIds (groups notified).
Proof. split; intros k [H|[]]; discriminate. Qed.

(** C1 as stated fails: "foo" was notified for the stream "a" titled
    "Hello"; it is now live with another stream id, "b", and the same title.
    The cycle ends normally without a single call: nothing is sent or
    pinned, and the state still names the stream "a". *)
Lemma new_stream_same_title_is_silent :
  let s := liveStream "b" "Hello" in
  let r := exec quiet (reconcile quiet "main" "foo" fooEntry (Some s))
             (world [("foo", notified)]) in
  lastStreamId notified <> Some (HelixStream.id s)
  /\ fst r = Ok tt
  /\ history (snd r) = []
  /\ data (snd r) = [("foo", notified)].
Proof. cbv zeta. split; [discriminate|]. vm_compute. auto. Qed.

(** [new_stream_fan_out] on a run: "foo", notified for the stream "a", is
    live with the stream "b" titled "Again". *)
Lemma new_stream_fan_out_witness :
  let s := liveStream "b" "Again" in
  let w := world [("foo", notified)] in
  let message := notification quiet "Again" "foo" (randomHex quiet O 5) in
  JS.get "foo" (data w) = Some notified
  /\ lastStreamId notified <> Some (HelixStream.id s)
  /\ lastStreamTitle notified <> Some (HelixStream.title s)
  /\ sendsSucceed quiet /\ pinsSucceed quiet /\ writesSucceed quiet
  /\ exists (w' : World) (st' : ChannelState) (cids gids : list Z),
       exec quiet (reconcile quiet "main" "foo" fooEntry (Some s)) w = (Ok tt, w')
       /\ List.length cids = List.length (channelIds fooEntry)
       /\ List.length gids = List.length (groupIds fooEntry)
       /\ history w'
          = history w
            ++ map (sent "main" message) (combine (channelIds fooEntry) cids)
            ++ flat_map (sentAndPinned "main" message)
                 (combine (groupIds fooEntry) gids)
            ++ [Ev statusDb_write (Fulfilled tt)]
       /\ JS.get "foo" (data w') = Some st'
       /\ lastStreamId st' = Some (HelixStream.id s)
       /\ lastStreamTitle st' = Some "Again"%string
       /\ channels st'
          = recordAll (channelIds fooEntry) cids
              (configuredOnly fooEntry (channels notified))
       /\ groups st' = recordAll (groupIds fooEntry) gids (groups notified)
       /\ (NoDup (channelIds fooEntry) ->
           forall c m, In (c, m) (combine (channelIds fooEntry) cids) ->
                       JS.get (JS.toString c) (channels st') = Some (Some m))
       /\ (NoDup (groupIds fooEntry) ->
           forall g m, In (g, m) (combine (groupIds fooEntry) gids) ->
                       JS.get (JS.toString g) (groups st') = Some (Some m))
       /\ (forall n, n <> "foo"%string -> JS.get n (data w') = JS.get n (data w))
       /\ disk w' = data w'.
Proof.
  cbv zeta.
  split; [reflexivity|]. split; [discriminate|]. split; [discriminate|].
  split; [exact quiet_sends|]. split; [exact quiet_pins|].
  split; [exact quiet_writes|].
  exact (new_stream_fan_out quiet "main" "foo" fooEntry (liveStream "b" "Again")
           (world [("foo", notified)]) notified eq_refl
           ltac:(discriminate) ltac:(discriminate)
           quiet_sends quiet_pins quiet_writes).
Defined.

(** [duplicate_suppression] on a run: "foo" is observed live twice with the
    stream "a" titled "Hello", starting from an empty state. *)
Lemma duplicate_suppression_witness :
  let s := liveStream "a" "Hello" in
  let w := world [("foo", fresh)] in
  let w1 := snd (exec quiet (reconcile quiet "main" "foo" fooEntry (Some s)) w) in
  let second := exec quiet (reconcile quiet "main" "foo" fooEntry (Some s)) w1 in
  JS.get "foo" (data w) <> None
  /\ history (snd second) = history w1
  /\ data (snd second) = data w1
  /\ disk (snd second) = disk w1
  /\ second = (Ok tt, print log "Already notified! Skip..."
                        (print log "Online: Hello" w1)).
Proof.
  cbv zeta.
  pose proof (duplicate_suppression quiet "main" "foo" fooEntry
                (liveStream "a" "Hello") (world [("foo", fresh)])) as H.
  cbv zeta in H. destruct H as ((Hh & Hd & Hdisk) & Hsecond & _).
  assert (Hsome : JS.get "foo" (data (world [("foo", fresh)])) <> None)
    by discriminate.
  split; [exact Hsome|]. split; [exact Hh|]. split; [exact Hd|].
  split; [exact Hdisk|]. exact (Hsecond Hsome).
Defined.

(** C3 on the code: "foo" was notified for the stream "a" in the channel
    100 and the group 200; the stream is retitled "Hello World", and
    Telegram rejects the edit of the message in 100.  The cycle ends with
    that rejection: the message in 200 is not edited.  The new title is in
    the state already, so the next cycle that observes it does nothing, and
    the message in 200 keeps the old title. *)
Lemma rejected_edit_ends_edits :
  let s := liveStream "a" "Hello World" in
  let E := externals (editRefusing "100" (Some s)) in
  let message :=
    ("Hello World <b>| IN ONDA |</b> "
       ++ "<a href='https://twitch.tv/foo?rid=00aa11bb22'>twitch.tv/foo</a>")%string in
  let r := exec E (reconcile E "main" "foo" fooEntry (Some s))
             (world [("foo", notified)]) in
  let again := exec E (reconcile E "main" "foo" fooEntry (Some s)) (snd r) in
  fst r = Thrown (Error "400: Bad Request")
  /\ history (snd r)
     = [Ev (editMessageText "main" (ChatStr "100") 1002 message)
          (Rejected (Error "400: Bad Request"))]
  /\ JS.get "foo" (data (snd r))
     = Some {| lastStreamId := Some "a"; lastStreamTitle := Some "Hello World";
               channels := [("100", Some 1002)]; groups := [("200", Some 1003)] |}
  /\ disk (snd r) = [("foo", notified)]
  /\ fst again = Ok tt
  /\ history (snd again) = history (snd r)
  /\ data (snd again) = data (snd r).
Proof. vm_compute. auto 10. Qed.

(** [title_change_edits] on a run: the stream "a" of "foo" is retitled
    "Hello World", and every service accepts what it is asked. *)
Lemma title_change_edits_witness :
  let s := liveStream "a" "Hello World" in
  let w := world [("foo", notified)] in
  let message :=
    ("Hello World <b>| IN ONDA |</b> "
       ++ "<a href='https://twitch.tv/foo?rid=00aa11bb22'>twitch.tv/foo</a>")%string in
  let r := exec quiet (reconcile quiet "main" "foo" fooEntry (Some s)) w in
  JS.get "foo" (data w) = Some notified
  /\ lastStreamId notified = Some (HelixStream.id s)
  /\ lastStreamTitle notified <> Some (HelixStream.title s)
  /\ validIds (channels notified) /\ validIds (groups notified)
  /\ editsSucceed quiet /\ writesSucceed quiet
  /\ JS.get "foo" (data (snd r))
     = Some {| lastStreamId := Some "a"; lastStreamTitle := Some "Hello World";
               channels := [("100", Some 1002)]; groups := [("200", Some 1003)] |}
  /\ fst r = Ok tt
  /\ history (snd r)
     = [Ev (editMessageText "main" (ChatStr "100") 1002 message) (Fulfilled tt);
        Ev (editMessageText "main" (ChatStr "200") 1003 message) (Fulfilled tt);
        Ev statusDb_write (Fulfilled tt)]
  /\ disk (snd r) = data (snd r)
  /\ output (snd r)
     = [(log, "Online: Hello World"%string); (log, "Updating alert title!"%string)].
Proof.
  cbv zeta.
  pose proof (title_change_edits quiet "main" "foo" fooEntry
                (liveStream "a" "Hello World") (world [("foo", notified)]) notified
                eq_refl eq_refl ltac:(discriminate)) as H.
  cbv zeta in H.
  destruct H as ((st' & evs & Hget & Ht & Hi & Hc & Hg & _) & Hexact).
  destruct (Hexact (proj1 notified_valid) (proj2 notified_valid)
              quiet_edits quiet_writes)
    as (w' & edits & Hr & Hh & He & _ & _ & Hdisk & Hout).
  split; [reflexivity|]. split; [reflexivity|]. split; [discriminate|].
  split; [exact (proj1 notified_valid)|]. split; [exact (proj2 notified_valid)|].
  split; [exact quiet_edits|]. split; [exact quiet_writes|].
  split.
  { rewrite Hget. destruct st' as [i t c g]. cbn in Ht, Hi, Hc, Hg.
    now rewrite Ht, Hi, Hc, Hg. }
  rewrite Hr. cbn [fst snd]. split; [reflexivity|].
  rewrite He in Hh, Hdisk. split; [rewrite Hh; reflexivity|].
  split; [exact Hdisk|]. rewrite Hout. reflexivity.
Defined.

(** [offline_unwind] on a run: "foo", notified for the stream "a", is
    observed offline. *)
Lemma offline_unwind_witness :
  let w := world [("foo", notified)] in
  let r := exec quiet (reconcile quiet "main" "foo" fooEntry None) w in
  JS.get "foo" (data w) = Some notified
  /\ validIds (groups notified)
  /\ writesSucceed quiet
  /\ exists (w' : World) (st' : ChannelState) (results : list (Settled unit)),
       r = (Ok tt, w')
       /\ List.length results = List.length (recorded (groups notified))
       /\ history w'
          = history w
            ++ flat_map (unpinned "main") (combine (recorded (groups notified)) results)
       /\ JS.get "foo" (data w') = Some st'
       /\ (forall g, JS.get g (groups st')
                     = match JS.get g (groups notified) with
                       | Some _ => Some None
                       | None => None
                       end)
       /\ disk w' = match recorded (groups notified) with
                    | [] => disk w
                    | _ => data w'
                    end.
Proof.
  cbv zeta.
  split; [reflexivity|]. split; [exact (proj2 notified_valid)|].
  split; [exact quiet_writes|].
  exact (proj2 (offline_unwind quiet "main" "foo" fooEntry
                  (world [("foo", notified)]) notified eq_refl)
           (proj2 notified_valid) quiet_writes).
Defined.

(** C7 as stated fails: "foo" was notified for the stream "a" and is now
    observed offline.  The cycle ends normally, the pin of the group 200 is
    undone, and [lastStreamId] is still "a", not [null]. *)
Lemma offline_keeps_lastStreamId :
  let r := exec quiet (reconcile quiet "main" "foo" fooEntry None)
             (world [("foo", notified)]) in
  fst r = Ok tt
  /\ JS.get "foo" (data (snd r))
     = Some {| lastStreamId := Some "a"; lastStreamTitle := Some "Hello";
               channels := [("100", Some 1002)]; groups := [("200", None)] |}.
Proof. vm_compute. auto. Qed.

(** [lastStreamId_after_cycle] on the same run. *)
Lemma lastStreamId_after_cycle_witness :
  let w := world [("foo", notified)] in
  JS.get "foo" (data w) = Some notified
  /\ stateIs "foo" (fun st' => lastStreamId st' = lastStreamId notified)
       (data (snd (exec quiet (reconcile quiet "main" "foo" fooEntry None) w))).
Proof.
  cbv zeta. split; [reflexivity|].
  exact (lastStreamId_after_cycle quiet "main" "foo" fooEntry None
           (world [("foo", notified)]) notified eq_refl).
Defined.

(** C5 on the code: the group 888 is no longer configured for "foo", its
    entry is still in [groups]; a new stream is observed.  The cleanup
    removes the entry of the channel 999 and leaves the entry of the group
    888 in place. *)
Lemma stale_group_entry_survives :
  let s := liveStream "b" "Again" in
  let r := exec quiet (reconcile quiet "main" "foo" fooEntry (Some s))
             (world [("foo", stale)]) in
  JS.includes (groupIds fooEntry) (JS.parseInt "888") = false
  /\ fst r = Ok tt
  /\ JS.get "foo" (data (snd r))
     = Some {| lastStreamId := Some "b"; lastStreamTitle := Some "Again";
               channels := [("100", Some 1000)];
               groups := [("200", Some 1001); ("888", Some 1005)] |}.
Proof. vm_compute. auto. Qed.

(** C6 on the code: "foo" is mirrored to the channel 100 and the groups
    200, 201, 202, and Telegram rejects the message for 201.  The cycle
    ends with that rejection: nothing is sent to 202, the state is not
    written, and the state in memory has the entries of 100 and 200. *)
Lemma failed_send_aborts_fan_out :
  let E := externals (refusing 201 None) in
  let s := liveStream "a" "Hello" in
  let message := notification E "Hello" "foo" (randomHex E O 5) in
  let r := exec E (reconcile E "main" "foo" wideEntry (Some s))
             (world [("foo", fresh)]) in
  fst r = Thrown (Error "400: Bad Request")
  /\ history (snd r)
     = [Ev (sendMessage "main" (ChatNum 100) message) (Fulfilled 1000);
        Ev (sendMessage "main" (ChatNum 200) message) (Fulfilled 1001);
        Ev (pinChatMessage "main" (ChatNum 200) 1001) (Fulfilled tt);
        Ev (sendMessage "main" (ChatNum 201) message)
           (Rejected (Error "400: Bad Request"))]
  /\ JS.get "foo" (data (snd r))
     = Some {| lastStreamId := Some "a"; lastStreamTitle := Some "Hello";
               channels := [("100", Some 1000)]; groups := [("200", Some 1001)] |}
  /\ disk (snd r) = [("foo", fresh)].
Proof. vm_compute. auto. Qed.

(** C8 as stated fails: Telegram takes 20 seconds to answer a send.  When
    the budget of "foo"'s cycle runs out, the state in memory already holds
    the stream id and title of the observation; the cycle then goes on,
    records the messages it sends, and writes the state. *)
Lemma timeout_leaves_partial_state :
  let E := externals (sluggish (Some (liveStream "a" "Hello"))) in
  let w := world [("foo", fresh)] in
  let r := fulfillWithTimeLimit E (15 * 1000) (update E config "foo" fooEntry) w in
  fst r = Thrown (Error "Task timeout!")
  /\ data w = [("foo", fresh)]
  /\ data (snd r)
     = [("foo", {| lastStreamId := Some "a"; lastStreamTitle := Some "Hello";
                   channels := []; groups := [] |})]
  /\ disk (resumeDetached E (snd r))
     = [("foo", {| lastStreamId := Some "a"; lastStreamTitle := Some "Hello";
                   channels := [("100", Some 1002)];
                   groups := [("200", Some 1003)] |})].
Proof. vm_compute. auto. Qed.

(** [timeout_while_resolving] on a run: Twitch takes 20 seconds to answer
    the user lookup.  "foo" is offline with a message pinned in 200, which
    the cycle, left to itself, unpins after the timeout. *)
Lemma timeout_while_resolving_witness :
  let E := externals stalled in
  let w := world [("foo", notified)] in
  JS.get (bot fooEntry) (Config.bots config) = Some "123:abc"%string
  /\ expiresWhileResolving E "foo" w
  /\ detached w = []
  /\ exists w' : World,
       fulfillWithTimeLimit E (15 * 1000) (update E config "foo" fooEntry) w
       = (Thrown (Error "Task timeout!"), w')
       /\ data w' = [("foo", notified)]
       /\ disk w' = [("foo", notified)]
       /\ List.length (detached w') = 1%nat
       /\ history w' = []
       /\ history (resumeDetached E w')
          = [Ev (getUsersByNames ["foo"%string]) (Fulfilled [fooUser]);
             Ev (getStreamByUserId "42") (Fulfilled None);
             Ev (unpinChatMessage "main" (ChatStr "200") 1003) (Fulfilled tt);
             Ev statusDb_write (Fulfilled tt)]
       /\ disk (resumeDetached E w')
          = [("foo", {| lastStreamId := Some "a"; lastStreamTitle := Some "Hello";
                        channels := [("100", Some 1002)];
                        groups := [("200", None)] |})].
Proof.
  cbv zeta.
  assert (Hexp : expiresWhileResolving (externals stalled) "foo"
                   (world [("foo", notified)])).
  { left. vm_compute. reflexivity. }
  split; [reflexivity|]. split; [exact Hexp|]. split; [reflexivity|].
  destruct (timeout_while_resolving (externals stalled) config "foo" fooEntry
              (world [("foo", notified)]) "123:abc" eq_refl Hexp)
    as (w' & Hrun & Hdata & Hdisk & Hlen & Hlater).
  destruct (Hlater eq_refl) as (_ & Hd & Hh & _).
  exists w'. split; [exact Hrun|]. split; [exact Hdata|]. split; [exact Hdisk|].
  split; [exact Hlen|].
  split.
  { replace w' with (snd (fulfillWithTimeLimit (externals stalled) (15 * 1000)
                            (update (externals stalled) config "foo" fooEntry)
                            (world [("foo", notified)])))
      by now rewrite Hrun.
    vm_compute. reflexivity. }
  split; [rewrite Hh; vm_compute; reflexivity|].
  rewrite Hd. vm_compute. reflexivity.
Defined.

(** C9 as stated fails: "foo" and "bar" are tracked, and Telegram rejects
    the message for "foo"'s channel.  The sweep ends with that rejection
    and has made no call for "bar". *)
Lemma sweep_stops_at_first_failure :
  let E := externals (refusing 100 (Some (liveStream "a" "Hello"))) in
  let message := notification E "Hello" "foo" (randomHex E O 5) in
  let r := updateAll E twoChannels (world [("foo", fresh); ("bar", fresh)]) in
  JS.keys (Config.channels twoChannels) = ["foo"; "bar"]%string
  /\ fst r = Thrown (Error "400: Bad Request")
  /\ history (snd r)
     = [Ev (getUsersByNames ["foo"%string]) (Fulfilled [fooUser]);
        Ev (getStreamByUserId "42") (Fulfilled (Some (liveStream "a" "Hello")));
        Ev (sendMessage "main" (ChatNum 100) message)
           (Rejected (Error "400: Bad Request"))].
Proof. vm_compute. auto. Qed.

(** [failure_ends_sweep] on the same run. *)
Lemma failure_ends_sweep_witness :
  let E := externals (refusing 100 (Some (liveStream "a" "Hello"))) in
  let w := world [("foo", fresh); ("bar", fresh)] in
  let e := Error "400: Bad Request" in
  let w2 := snd (fulfillWithTimeLimit E (15 * 1000)
                   (update E twoChannels "foo" fooEntry) w) in
  JS.entries (Config.channels twoChannels) = [] ++ ("foo"%string, fooEntry) :: [("bar"%string, barEntry)]
  /\ updateEach E twoChannels [] w = (Ok tt, w)
  /\ fulfillWithTimeLimit E (15 * 1000) (update E twoChannels "foo" fooEntry) w
     = (Thrown e, w2)
  /\ updateAll E twoChannels w = (Thrown e, w2)
  /\ turn E twoChannels w
     = at_time (now w2 + sleepDelay)%N (print error (messageOf e) w2).
Proof.
  cbv zeta.
  assert (Hfail :
    fulfillWithTimeLimit (externals (refusing 100 (Some (liveStream "a" "Hello"))))
      (15 * 1000) (update (externals (refusing 100 (Some (liveStream "a" "Hello"))))
                     twoChannels "foo" fooEntry)
      (world [("foo", fresh); ("bar", fresh)])
    = (Thrown (Error "400: Bad Request"),
       snd (fulfillWithTimeLimit
              (externals (refusing 100 (Some (liveStream "a" "Hello"))))
              (15 * 1000)
              (update (externals (refusing 100 (Some (liveStream "a" "Hello"))))
                 twoChannels "foo" fooEntry)
              (world [("foo", fresh); ("bar", fresh)])))).
  { vm_compute. reflexivity. }
  split; [reflexivity|]. split; [reflexivity|]. split; [exact Hfail|].
  exact (failure_ends_sweep (externals (refusing 100 (Some (liveStream "a" "Hello"))))
           twoChannels [] [("bar"%string, barEntry)] "foo" fooEntry
           (world [("foo", fresh); ("bar", fresh)])
           (world [("foo", fresh); ("bar", fresh)]) _ _
           eq_refl eq_refl Hfail).
Defined.

(** *** The further properties, on runs *)

(** [chat_key_round_trip] on the id of a supergroup. *)
Lemma chat_key_round_trip_witness :
  JS.isSafeInteger (-1001234567890) = true
  /\ JS.toString (-1001234567890) = "-1001234567890"%string
  /\ JS.parseInt (JS.toString (-1001234567890)) = Some (-1001234567890)
  /\ (JS.includes [100; -1001234567890] (JS.parseInt (JS.toString (-1001234567890)))
      = true
      <-> In (-1001234567890) [100; -1001234567890]).
Proof.
  split; [reflexivity|]. split; [reflexivity|].
  exact (chat_key_round_trip (-1001234567890) [100; -1001234567890] eq_refl).
Defined.

(** [unknown_bot_stops_update] on a run: an entry of "foo" for the bot
    "ghost", which the configuration does not have. *)
Lemma unknown_bot_stops_update_witness :
  let w := world [("foo", fresh)] in
  JS.get (bot ghostEntry) (Config.bots config) = None
  /\ JS.inherited (bot ghostEntry) = false
  /\ exec quiet (update quiet config "foo" ghostEntry) w
     = (Thrown (Error "Unknown bot ghost"), w)
  /\ fulfillWithTimeLimit quiet 15000 (update quiet config "foo" ghostEntry) w
     = (Thrown (Error "Unknown bot ghost"), w).
Proof.
  cbv zeta. split; [reflexivity|]. split; [reflexivity|].
  exact (unknown_bot_stops_update quiet config "foo" ghostEntry 15000
           (world [("foo", fresh)]) eq_refl eq_refl).
Defined.


(** [unknown_user_changes_nothing] on a run: Twitch has no user
    "nobody". *)
Lemma unknown_user_changes_nothing_witness :
  let w := world [("nobody", fresh)] in
  JS.get (bot fooEntry) (Config.bots config) = Some "123:abc"%string
  /\ fst (respond quiet _ (history w) (getUsersByNames ["nobody"%string]))
     = Fulfilled []
  /\ exists w' : World,
       exec quiet (update quiet config "nobody" fooEntry) w = (Ok tt, w')
       /\ data w' = data w
       /\ disk w' = disk w
       /\ history w'
          = history w ++ [Ev (getUsersByNames ["nobody"%string]) (Fulfilled [])]
       /\ output w'
          = output w ++ [(log, "Checking user nobody!"%string);
                         (log, "EMPTY RESULT!"%string)].
Proof.
  cbv zeta. split; [reflexivity|]. split; [reflexivity|].
  exact (unknown_user_changes_nothing quiet config "nobody" fooEntry
           (world [("nobody", fresh)]) "123:abc" eq_refl eq_refl).
Defined.

(** [failed_lookup_changes_nothing] on a run: Twitch rejects the lookup of
    "foo". *)
Lemma failed_lookup_changes_nothing_witness :
  let E := externals twitchDown in
  let w := world [("foo", notified)] in
  let e := Error "400: Bad Request" in
  let r := exec E (update E config "foo" fooEntry) w in
  JS.get (bot fooEntry) (Config.bots config) = Some "123:abc"%string
  /\ lookupRejected E "foo" w e
  /\ fst r = Thrown e
  /\ data (snd r) = data w
  /\ disk (snd r) = disk w
  /\ exists evs, history (snd r) = history w ++ evs
                 /\ Forall (fun ev => isLookup (kindOfEvent ev) = true) evs.
Proof.
  cbv zeta.
  assert (Hrej : lookupRejected (externals twitchDown) "foo" (world [("foo", notified)])
                   (Error "400: Bad Request")) by (left; reflexivity).
  split; [reflexivity|]. split; [exact Hrej|].
  exact (failed_lookup_changes_nothing (externals twitchDown) config "foo" fooEntry
           (world [("foo", notified)]) "123:abc" (Error "400: Bad Request")
           eq_refl Hrej).
Defined.

(** [configured_records_stay] on a run: the sweep starts the cycle of
    "foo", which prints its first line. *)
Lemma configured_records_stay_witness :
  let w := world [("foo", fresh)] in
  let w' := print log "Checking user foo!" w in
  isConfigured config "foo" = true
  /\ JS.get "foo" (data w) <> None
  /\ exists rest : Prog unit,
       processRun quiet config (w, []) (w', [rest])
       /\ JS.get "foo" (data w') <> None.
Proof.
  cbv zeta.
  assert (Hin : JS.get "foo" (data (world [("foo", fresh)])) <> None)
    by discriminate.
  assert (Hrun : exists rest : Prog unit,
             processRun quiet config (world [("foo", fresh)], [])
               (print log "Checking user foo!" (world [("foo", fresh)]), [rest])).
  { eexists.
    apply (run_on quiet config _
             (world [("foo", fresh)], [update quiet config "foo" fooEntry])).
    - apply (startCycle quiet config _ [] "foo" fooEntry). left. reflexivity.
    - eapply run_on; [|apply run_here].
      apply (runTask quiet config _ _ [] []). cbn. split; reflexivity. }
  destruct Hrun as [rest Hrun].
  split; [reflexivity|]. split; [exact Hin|].
  exists rest. split; [exact Hrun|].
  exact (configured_records_stay quiet config "foo" _ _ [rest] eq_refl Hin Hrun).
Defined.

(** [finished_sweep_drops_unconfigured] on a run: the file has a record of
    "old", which is no longer configured. *)
Lemma finished_sweep_drops_unconfigured_witness :
  let w := world [("foo", fresh); ("old", fresh)] in
  fst (updateAll quiet config w) = Ok tt
  /\ isConfigured config "old" = false
  /\ JS.inherited "old" = false
  /\ JS.get "old" (data (snd (updateAll quiet config w))) = None.
Proof.
  cbv zeta.
  assert (Hok : fst (updateAll quiet config (world [("foo", fresh); ("old", fresh)]))
                = Ok tt) by (vm_compute; reflexivity).
  split; [exact Hok|]. split; [reflexivity|]. split; [reflexivity|].
  exact (finished_sweep_drops_unconfigured quiet config
           (world [("foo", fresh); ("old", fresh)]) "old" Hok eq_refl eq_refl).
Defined.


(** [timed_out_task_runs_to_its_end] on the same run. *)
Lemma timed_out_task_runs_to_its_end_witness :
  let E := externals stalled in
  let w := world [("foo", notified)] in
  let task := update E config "foo" fooEntry in
  let later := resumeDetached E (snd (fulfillWithTimeLimit E 15000 task w)) in
  let unlimited := snd (exec E task w) in
  (0 < 15000)%N
  /\ detached w = []
  /\ (now w + 15000 <= now unlimited)%N
  /\ data later = data unlimited
  /\ disk later = disk unlimited
  /\ history later = history unlimited
  /\ output later = output unlimited.
Proof.
  cbv zeta.
  assert (Hlate : (now (world [("foo", notified)]) + 15000
                   <= now (snd (exec (externals stalled)
                                  (update (externals stalled) config "foo" fooEntry)
                                  (world [("foo", notified)]))))%N)
    by (vm_compute; discriminate).
  split; [reflexivity|]. split; [reflexivity|]. split; [exact Hlate|].
  exact (timed_out_task_runs_to_its_end (externals stalled)
           (update (externals stalled) config "foo" fooEntry) 15000
           (world [("foo", notified)]) eq_refl eq_refl Hlate).
Defined.

(** [cleanup_keeps_configured_channels] on a run: the state has entries of
    the channel 999, which is no longer configured. *)
Lemma cleanup_keeps_configured_channels_witness :
  let w := world [("foo", stale)] in
  JS.get "foo" (data w) = Some stale
  /\ Forall (fun c => JS.isSafeInteger c = true) (channelIds fooEntry)
  /\ exists (w' : World) (st' : ChannelState),
       exec quiet (cleanupRemoved "foo" fooEntry) w = (Ok tt, w')
       /\ JS.get "foo" (data w') = Some st'
       /\ (forall k, JS.get k (channels st')
                     = if JS.includes (channelIds fooEntry) (JS.parseInt k)
                       then JS.get k (channels stale)
                       else None)
       /\ (forall c, In c (channelIds fooEntry) ->
                     JS.get (JS.toString c) (channels st')
                     = JS.get (JS.toString c) (channels stale))
       /\ groups st' = groups stale
       /\ history w' = history w.
Proof.
  cbv zeta.
  assert (Hsafe : Forall (fun c => JS.isSafeInteger c = true) (channelIds fooEntry))
    by (repeat constructor).
  split; [reflexivity|]. split; [exact Hsafe|].
  exact (cleanup_keeps_configured_channels quiet "foo" fooEntry
           (world [("foo", stale)]) stale eq_refl Hsafe).
Defined.

(** [offline_with_nothing_pinned] on a run. *)
Lemma offline_with_nothing_pinned_witness :
  let w := world [("foo", unpinnedState)] in
  JS.get "foo" (data w) = Some unpinnedState
  /\ (forall g v, In (g, v) (groups unpinnedState) -> JS.falsy v = true)
  /\ exec quiet (reconcile quiet "main" "foo" fooEntry None) w
     = (Ok tt, print log "Not online!" w).
Proof.
  cbv zeta.
  assert (Hnone : forall g v, In (g, v) (groups unpinnedState) -> JS.falsy v = true).
  { intros g v [Heq|[]]. injection Heq as _ <-. reflexivity. }
  split; [reflexivity|]. split; [exact Hnone|].
  exact (offline_with_nothing_pinned quiet "main" "foo" fooEntry
           (world [("foo", unpinnedState)]) unpinnedState eq_refl Hnone).
Defined.

(** [offline_twice] on a run: "foo", notified for the stream "a", is
    observed offline twice. *)
Lemma offline_twice_witness :
  let w := world [("foo", notified)] in
  let w1 := snd (exec quiet (reconcile quiet "main" "foo" fooEntry None) w) in
  JS.get "foo" (data w) = Some notified
  /\ NoDup (map fst (groups notified))
  /\ validIds (groups notified)
  /\ writesSucceed quiet
  /\ exec quiet (reconcile quiet "main" "foo" fooEntry None) w1
     = (Ok tt, print log "Not online!" w1).
Proof.
  cbv zeta.
  assert (Hnd : NoDup (map fst (groups notified))).
  { constructor; [intros []|constructor]. }
  split; [reflexivity|]. split; [exact Hnd|].
  split; [exact (proj2 notified_valid)|]. split; [exact quiet_writes|].
  exact (offline_twice quiet "main" "foo" fooEntry (world [("foo", notified)])
           notified eq_refl Hnd (proj2 notified_valid) quiet_writes).
Defined.

End Runs.
